(** * vulcan-ai: the real-time voice session of [src/App.tsx]

    A shallow embedding of the live-session code of the [App] component
    ([stopLiveSession], [startLiveSession] and the callbacks it installs)
    together with the PCM codec described by the specification, and the
    properties of the specification checked against them.

    Layout:
    - [Js]       the few ECMAScript conversions the code relies on
                 (IEEE binary64 numbers, [ToInt16], typed-array views);
    - [Codec]    the PCM codec of the specification (section 4.1);
    - [Capture]  the [onaudioprocess] callback (App.tsx:193-200);
    - [JsSet]    the operations of an ECMAScript [Set];
    - [Live]     the session state, [stopLiveSession] (App.tsx:159-166),
                 [startLiveSession] (App.tsx:168-202) and its callbacks. *)

From stdpp Require Import base option list.
From Stdlib Require Import ZArith Lia Bool String QArith Qround Qpower.
From Stdlib.Strings Require Import Byte.
From Stdlib Require Import DecimalString Sorted Permutation.
From Stdlib Require Import SpecFloat.

Local Open Scope Z_scope.

(** Results of operations that can fail or throw. *)
Inductive result (E A : Type) : Type :=
| Ok (a : A)
| Err (e : E).
Arguments Ok {E A} a.
Arguments Err {E A} e.

(* ================================================================== *)
(** ** ECMAScript numbers and typed-array conversions *)
(* ================================================================== *)

Module Js.

(** A JavaScript Number is an IEEE 754 binary64 value. *)
Definition number : Type := spec_float.

Definition prec : Z := 53.
Definition emax : Z := 1024.

Definition mul : number -> number -> number := SFmul prec emax.
Definition add : number -> number -> number := SFadd prec emax.
Definition div : number -> number -> number := SFdiv prec emax.
Definition sqrt : number -> number := SFsqrt prec emax.

(** The Number whose value is [m * 2^e] (rounded if it has to be). *)
Definition dyadic (m e : Z) : number := binary_normalize prec emax m e false.
Definition of_Z (z : Z) : number := dyadic z 0.

Definition is_number (x : number) : bool := valid_binary prec emax x.

Definition finite (x : number) : bool :=
  match x with
  | S754_zero _ | S754_finite _ _ _ => true
  | S754_infinity _ | S754_nan => false
  end.

(** The mathematical value of a finite Number. *)
Definition value (x : number) : Q :=
  match x with
  | S754_finite s m e => inject_Z (cond_Zopp s (Zpos m)) * Qpower 2 e
  | _ => 0
  end.

(** [truncate(x)]: the integral part, rounding towards zero. *)
Definition truncate (x : number) : Z :=
  match x with
  | S754_finite s m e =>
      cond_Zopp s (if 0 <=? e then Zpos m * 2 ^ e else Zpos m / 2 ^ (- e))
  | _ => 0
  end.

(** Two's complement reading of a 16-bit pattern. *)
Definition signed16 (u : Z) : Z :=
  if u <? 32768 then u else u - 65536.

(** ECMAScript [ToInt16], the conversion applied when a Number is
    stored into an [Int16Array]: non-finite values and zeros give 0,
    otherwise truncate, reduce modulo 2^16 and read as signed. *)
Definition ToInt16 (x : number) : Z :=
  match x with
  | S754_finite _ _ _ => signed16 (truncate x mod 65536)
  | _ => 0
  end.

Definition byte_val (b : byte) : Z := Z.of_N (Byte.to_N b).

Definition byte_of (z : Z) : byte :=
  match Byte.of_N (Z.to_N (z mod 256)) with
  | Some b => b
  | None => x00
  end.

(** [new Uint8Array(int16.buffer)]: the bytes of an [Int16Array], each
    element low byte first. *)
Definition int16_bytes (s : Z) : list byte :=
  let u := s mod 65536 in [byte_of (u mod 256); byte_of (u / 256)].

Definition Uint8Array_of_Int16Array (a : list Z) : list byte :=
  flat_map int16_bytes a.

(** Truncation of a rational towards zero, the reference against which
    [truncate] is checked. *)
Definition Qtrunc (q : Q) : Z :=
  if Qle_bool 0 q then Qfloor q else Qceiling q.

End Js.

(* ================================================================== *)
(** ** The PCM codec (specification, section 4.1) *)
(* ================================================================== *)

Module Codec.

Inductive CodecError : Type := MalformedFrame.

(** Modelled from the spec: [services/geminiService] (the module that
    defines the codec) is not among the sources.  Section 4.1:
    "[decode(bytes) -> sequence<int16>] ... odd-length input to [decode]
    fails with [MalformedFrame] ... decoding performs no validation of
    the value range beyond bit width".  Samples are read in the byte
    order of the typed-array view of the capture path (App.tsx:197-199),
    low byte first. *)
Fixpoint decode (b : list byte) : result CodecError (list Z) :=
  match b with
  | [] => Ok []
  | [_] => Err MalformedFrame
  | lo :: hi :: rest =>
      match decode rest with
      | Ok samples =>
          Ok (Js.signed16 (Js.byte_val lo + 256 * Js.byte_val hi) :: samples)
      | Err e => Err e
      end
  end.

(** Modelled from the spec: [services/geminiService] is not among the
    sources.  Section 4.1: "[encode(sequence<int16>) -> bytes] ...
    encoding performs no clamping": each sample contributes the two
    bytes of its low 16 bits, whatever its value. *)
Definition encode_sample (s : Z) : list byte :=
  let u := s mod 65536 in [Js.byte_of (u mod 256); Js.byte_of (u / 256)].

(** Modelled from the spec: [services/geminiService] is not among the
    sources.  [encode] of a sequence is the concatenation of the bytes of
    its samples. *)
Definition encode (samples : list Z) : list byte :=
  flat_map encode_sample samples.

(** The sample values a caller has to keep to ("callers must pre-clamp
    sample values to [[-32768, 32767]]"). *)
Definition int16 (s : Z) : Prop := -32768 <= s <= 32767.

End Codec.

(* ================================================================== *)
(** ** The capture callback (App.tsx:193-200) *)
(* ================================================================== *)

Module Capture.

(** [32768] as a Number. *)
Definition scale : Js.number := Js.of_Z 32768.

(** App.tsx:198, [int16[i] = data[i] * 32768]: the product is a Number
    and the store into the [Int16Array] applies [ToInt16]. *)
Definition int16_of_sample (x : Js.number) : Z :=
  Js.ToInt16 (Js.mul x scale).

(** App.tsx:197-198. *)
Definition int16_of_block (data : list Js.number) : list Z :=
  map int16_of_sample data.

(** App.tsx:195, [sum += data[i]*data[i]] from [sum = 0]. *)
Definition sum_squares (data : list Js.number) : Js.number :=
  fold_left (fun sum x => Js.add sum (Js.mul x x)) data (Js.of_Z 0).

(** App.tsx:196, [Math.sqrt(sum/data.length)]. *)
Definition rms (data : list Js.number) : Js.number :=
  Js.sqrt (Js.div (sum_squares data) (Js.of_Z (Z.of_nat (List.length data)))).

End Capture.

(* ================================================================== *)
(** ** ECMAScript [Set] objects *)
(* ================================================================== *)

Module JsSet.
Section Ops.
Context {A : Type} `{EqDecision A}.

(** A [Set] keeps its elements without repetition in insertion
    order, which is the order [forEach] visits them in. *)
Definition add (x : A) (l : list A) : list A :=
  if decide (x ∈ l) then l else l ++ [x].

Definition delete (x : A) (l : list A) : list A :=
  filter (fun y => y ≠ x) l.

Definition size (l : list A) : nat := List.length l.

Definition clear (l : list A) : list A := [].
End Ops.
End JsSet.

(* ================================================================== *)
(** ** The live session (App.tsx:27-30, 49-51, 159-202, 290, 427) *)
(* ================================================================== *)

Module Live.

(** *** Collaborators *)

(** Identity of an [AudioBufferSourceNode]. *)
Definition NodeId : Type := positive.

(** The transport session handed out by [connectLive]. *)
Definition Session : Type := positive.

(** An [AudioBuffer]; only its length in sample frames matters here
    (its duration is that length divided by the sample rate). *)
Record AudioBuffer : Type := { frames : Z }.

Inductive Error : Type :=
| NotAllowedError      (* getUserMedia: permission denied *)
| NotFoundError        (* getUserMedia: no capture device *)
| InvalidStateError    (* AudioBufferSourceNode.stop *)
| DecodeError.         (* decodePCM, decodeAudioData *)

(** The helpers imported from [./services/geminiService] (App.tsx:4),
    which is not among the sources: they are parameters of the model.
    Either decoding step may throw (section 4.1 of the specification:
    a payload of odd length is malformed). *)
Class GeminiService : Type := {
  encodePCM : list byte -> string;
  decodePCM : string -> result Error (list byte);
  decodeAudioData : list byte -> Z -> Z -> result Error AudioBuffer
}.

(** Whether [stop()] on a given source node throws (it does in some
    engines once the node has finished); the code guards for it. *)
Class WebAudio : Type := { stop_throws : NodeId -> bool }.

(** One [start()] call on a source node.  Times are counted in sample
    frames of the 24 kHz output context: [calledAt] is the context's
    current time at the call, [when] the argument of [start] (0 when
    omitted). *)
Record PlaybackHandle : Type := {
  node : NodeId;
  calledAt : Z;
  when : Z;
  bufferLength : Z
}.

(** Web Audio: playback begins at [when], or at once when [when] is
    already past. *)
Definition startTime (h : PlaybackHandle) : Z := Z.max (when h) (calledAt h).
Definition endTime (h : PlaybackHandle) : Z := startTime h + bufferLength h.

(** Calls made on the collaborators, in program order. *)
Inductive Call : Type :=
| NewAudioContext (sampleRate : Z)
| ContextResume
| GetUserMedia
| CreateMediaStreamSource
| CreateScriptProcessor (bufferSize inputs outputs : Z)
| ConnectLive
| ConnectCapture
| SourceStart (h : PlaybackHandle)
| SourceStop (n : NodeId)
| SessionClose (c : Session)
| SendRealtimeInput (data mimeType : string)
| ConsoleError (e : Error).

(** *** Inbound messages (App.tsx:179, 188, 189) *)

Record Blob : Type := { data : option string }.
Record Part : Type := { inlineData : option Blob }.
Record Content : Type := { parts : list Part }.
Record Transcription : Type := { text : string }.
Record ServerContent : Type := {
  modelTurn : option Content;
  inputTranscription : option Transcription;
  outputTranscription : option Transcription
}.
Record LiveServerMessage : Type := { serverContent : option ServerContent }.

(** [msg.serverContent?.modelTurn?.parts[0]?.inlineData?.data] *)
Definition audioOf (msg : LiveServerMessage) : option string :=
  sc ← serverContent msg; mt ← modelTurn sc; p ← head (parts mt);
  b ← inlineData p; data b.

(** [msg.serverContent?.inputTranscription] *)
Definition inputTranscriptionOf (msg : LiveServerMessage)
  : option Transcription := serverContent msg ≫= inputTranscription.

(** [msg.serverContent?.outputTranscription] *)
Definition outputTranscriptionOf (msg : LiveServerMessage)
  : option Transcription := serverContent msg ≫= outputTranscription.

(** Truthiness of an optional string: [undefined] and [''] are falsy. *)
Definition truthy (a : option string) : bool :=
  match a with
  | Some EmptyString | None => false
  | Some (String _ _) => true
  end.

(** *** State *)

Record Transcriptions : Type := { input : string; output : string }.

Record AudioContext : Type := { sampleRate : Z }.

Record State : Type := {
  isLiveActive : bool;                     (* App.tsx:27 *)
  isModelSpeaking : bool;                  (* App.tsx:28 *)
  userVolume : Js.number;                  (* App.tsx:29 *)
  transcriptions : Transcriptions;         (* App.tsx:30 *)
  audioContextRef : option AudioContext;   (* App.tsx:49 *)
  liveSessionRef : option Session;         (* App.tsx:50 *)
  audioSourcesRef : list NodeId;           (* App.tsx:51, a Set *)
  nextNode : NodeId                        (* fresh node identities *)
}.

Definition init : State := {|
  isLiveActive := false;
  isModelSpeaking := false;
  userVolume := Js.of_Z 0;
  transcriptions := {| input := ""; output := "" |};
  audioContextRef := None;
  liveSessionRef := None;
  audioSourcesRef := [];
  nextNode := 1%positive
|}.

Definition setIsLiveActive (b : bool) (s : State) : State :=
  {| isLiveActive := b; isModelSpeaking := isModelSpeaking s;
     userVolume := userVolume s; transcriptions := transcriptions s;
     audioContextRef := audioContextRef s; liveSessionRef := liveSessionRef s;
     audioSourcesRef := audioSourcesRef s; nextNode := nextNode s |}.

Definition setIsModelSpeaking (b : bool) (s : State) : State :=
  {| isLiveActive := isLiveActive s; isModelSpeaking := b;
     userVolume := userVolume s; transcriptions := transcriptions s;
     audioContextRef := audioContextRef s; liveSessionRef := liveSessionRef s;
     audioSourcesRef := audioSourcesRef s; nextNode := nextNode s |}.

Definition setUserVolume (v : Js.number) (s : State) : State :=
  {| isLiveActive := isLiveActive s; isModelSpeaking := isModelSpeaking s;
     userVolume := v; transcriptions := transcriptions s;
     audioContextRef := audioContextRef s; liveSessionRef := liveSessionRef s;
     audioSourcesRef := audioSourcesRef s; nextNode := nextNode s |}.

(** [setTranscriptions(p => f p)] and [setTranscriptions(v)]. *)
Definition setTranscriptions (f : Transcriptions -> Transcriptions)
    (s : State) : State :=
  {| isLiveActive := isLiveActive s; isModelSpeaking := isModelSpeaking s;
     userVolume := userVolume s; transcriptions := f (transcriptions s);
     audioContextRef := audioContextRef s; liveSessionRef := liveSessionRef s;
     audioSourcesRef := audioSourcesRef s; nextNode := nextNode s |}.

Definition setAudioContext (c : option AudioContext) (s : State) : State :=
  {| isLiveActive := isLiveActive s; isModelSpeaking := isModelSpeaking s;
     userVolume := userVolume s; transcriptions := transcriptions s;
     audioContextRef := c; liveSessionRef := liveSessionRef s;
     audioSourcesRef := audioSourcesRef s; nextNode := nextNode s |}.

Definition setAudioSources (f : list NodeId -> list NodeId)
    (s : State) : State :=
  {| isLiveActive := isLiveActive s; isModelSpeaking := isModelSpeaking s;
     userVolume := userVolume s; transcriptions := transcriptions s;
     audioContextRef := audioContextRef s; liveSessionRef := liveSessionRef s;
     audioSourcesRef := f (audioSourcesRef s); nextNode := nextNode s |}.

Definition setNextNode (n : NodeId) (s : State) : State :=
  {| isLiveActive := isLiveActive s; isModelSpeaking := isModelSpeaking s;
     userVolume := userVolume s; transcriptions := transcriptions s;
     audioContextRef := audioContextRef s; liveSessionRef := liveSessionRef s;
     audioSourcesRef := audioSourcesRef s; nextNode := n |}.

(** *** Handlers as state transformers that may throw and that log the
    calls they make *)

Definition M (A : Type) : Type :=
  State -> result Error A * State * list Call.

#[export] Instance M_ret : MRet M := fun A a s => (Ok a, s, []).

#[export] Instance M_bind : MBind M := fun A B k m s =>
  match m s with
  | (Ok a, s1, c1) => let '(r, s2, c2) := k a s1 in (r, s2, c1 ++ c2)
  | (Err e, s1, c1) => (Err e, s1, c1)
  end.

Definition throw {A : Type} (e : Error) : M A := fun s => (Err e, s, []).

(** [try { m } catch (e) { h e }] *)
Definition try_catch {A : Type} (m : M A) (h : Error -> M A) : M A :=
  fun s =>
    match m s with
    | (Ok a, s1, c1) => (Ok a, s1, c1)
    | (Err e, s1, c1) => let '(r, s2, c2) := h e s1 in (r, s2, c1 ++ c2)
    end.

Definition get : M State := fun s => (Ok s, s, []).
Definition modify (f : State -> State) : M unit := fun s => (Ok tt, f s, []).
Definition call (c : Call) : M unit := fun s => (Ok tt, s, [c]).
Definition skip : M unit := mret tt.

Fixpoint forEach {A : Type} (l : list A) (f : A -> M unit) : M unit :=
  match l with
  | [] => skip
  | a :: rest => f a ;; forEach rest f
  end.

Definition resultOf {A : Type} (r : result Error A * State * list Call)
  : result Error A := fst (fst r).
Definition stateOf {A : Type} (r : result Error A * State * list Call)
  : State := snd (fst r).
Definition callsOf {A : Type} (r : result Error A * State * list Call)
  : list Call := snd r.

(** Playback handles started by a run of calls, in order. *)
Definition playbacks (calls : list Call) : list PlaybackHandle :=
  omap (fun c => match c with SourceStart h => Some h | _ => None end) calls.

(** The four session states of the specification.  The code keeps a
    single flag, so only two of them can be observed. *)
Inductive SessionState : Type := Idle | Connecting | Active | Closing.

Definition sessionState (s : State) : SessionState :=
  if isLiveActive s then Active else Idle.

(** What [startLiveSession] learns from the browser: the state of the
    output context and the outcome of [getUserMedia]. *)
Record StartEnv : Type := {
  contextSuspended : bool;
  microphone : result Error unit
}.

(** The callbacks the event loop runs.  The message handler is
    [async] and awaits the decoding of an accepted audio payload
    (App.tsx:182), so it runs in two steps between which other
    callbacks may run: [OnMessageArrived] is the handler up to its
    [await], [OnDecodeSettled] the rest of it once the decoding has
    settled.  [OnMessage] is the two back to back: a message whose
    decoding settles before any other callback runs.  [now] is the
    output context's current time when the rest of the handler runs.
    In the program an [OnDecodeSettled] follows, once, the
    [OnMessageArrived] of a message with an accepted payload; the event
    lists below are not restricted to that, so what is proved of all of
    them holds of the program's runs. *)
Inductive Event : Type :=
| ToggleLive (env : StartEnv)                    (* App.tsx:290 *)
| OverlayClose                                   (* App.tsx:427 *)
| OnOpen                                         (* App.tsx:177 *)
| OnMessage (now : Z) (msg : LiveServerMessage)  (* App.tsx:178-190 *)
| OnClose                                        (* App.tsx:191 *)
| OnError                                        (* App.tsx:191 *)
| OnEnded (n : NodeId)                           (* App.tsx:185 *)
| OnAudioProcess (data : list Js.number)         (* App.tsx:193 *)
| OnMessageArrived (msg : LiveServerMessage)     (* App.tsx:178-182 *)
| OnDecodeSettled (now : Z) (msg : LiveServerMessage). (* App.tsx:182-190 *)

Definition emptyTranscriptions : Transcriptions :=
  {| input := ""; output := "" |}.

(** The audio payload of a message when it is truthy, the first half
    of the test of App.tsx:180. *)
Definition audioPayload (msg : LiveServerMessage) : option string :=
  if truthy (audioOf msg) then audioOf msg else None.

(** The test of App.tsx:180, [audio && audioContextRef.current]: the
    payload the handler goes on to decode, if any. *)
Definition acceptedAudio (msg : LiveServerMessage) (s : State)
  : option string :=
  match audioPayload msg, audioContextRef s with
  | Some audio, Some _ => Some audio
  | _, _ => None
  end.

(** The state after the two updates of App.tsx:188-189. *)
Definition withTranscripts (msg : LiveServerMessage) (s : State) : State :=
  let s1 :=
    match inputTranscriptionOf msg with
    | Some t =>
        setTranscriptions
          (fun p => {| input := text t; output := output p |}) s
    | None => s
    end in
  match outputTranscriptionOf msg with
  | Some t =>
      setTranscriptions
        (fun p => {| input := input p; output := output p ++ text t |}) s1
  | None => s1
  end.

(** The [start()] call of App.tsx:186 on a fresh node, made at context
    time [now] in state [s]. *)
Definition startCall (now : Z) (buffer : AudioBuffer) (s : State) : Call :=
  SourceStart {| node := nextNode s; calledAt := now; when := 0;
                 bufferLength := frames buffer |}.

(** The state after App.tsx:183-186: a fresh node is in the set. *)
Definition started (s : State) : State :=
  setAudioSources (JsSet.add (nextNode s))
    (setNextNode (Pos.succ (nextNode s)) s).

Section Handlers.
Context {svc : GeminiService} {wa : WebAudio}.

(** [s.stop()] *)
Definition nodeStop (n : NodeId) : M unit :=
  call (SourceStop n);;
  if stop_throws n then throw InvalidStateError else skip.

(** App.tsx:159-166 *)
Definition stopLiveSession : M unit :=
  s ← get;
  match liveSessionRef s with
  | Some c => call (SessionClose c)
  | None => skip
  end;;
  forEach (audioSourcesRef s)
    (fun n => try_catch (nodeStop n) (fun _ => skip));;
  modify (setAudioSources JsSet.clear);;
  modify (setIsLiveActive false);;
  modify (setIsModelSpeaking false);;
  modify (setTranscriptions (fun _ => emptyTranscriptions)).

(** App.tsx:170-176, the body of the [try]. *)
Definition startLiveSession_try (env : StartEnv) : M unit :=
  s ← get;
  match audioContextRef s with
  | None =>
      call (NewAudioContext 24000);;
      modify (setAudioContext (Some {| sampleRate := 24000 |}))
  | Some _ => skip
  end;;
  (if contextSuspended env then call ContextResume else skip);;
  call GetUserMedia;;
  match microphone env with
  | Ok _ => skip
  | Err e => throw e
  end;;
  call (NewAudioContext 16000);;
  call CreateMediaStreamSource;;
  call (CreateScriptProcessor 4096 1 1);;
  call ConnectLive.

(** App.tsx:168-202 *)
Definition startLiveSession (env : StartEnv) : M unit :=
  try_catch (startLiveSession_try env)
    (fun e => call (ConsoleError e);; modify (setIsLiveActive false)).

(** App.tsx:177 *)
Definition onopen : M unit :=
  modify (setIsLiveActive true);; call ConnectCapture.

(** App.tsx:185 *)
Definition onended (n : NodeId) : M unit :=
  modify (setAudioSources (JsSet.delete n));;
  s ← get;
  if decide (JsSet.size (audioSourcesRef s) = 0%nat)
  then modify (setIsModelSpeaking false)
  else skip.

(** App.tsx:182, [decodeAudioData(decodePCM(audio), ctx, 24000, 1)]:
    the awaited value, or the exception either helper throws.  (An
    exception of [decodePCM] leaves the handler before the [await]
    rather than after it; the state it leaves behind is the same.) *)
Definition decoded (audio : string) : result Error AudioBuffer :=
  match decodePCM audio with
  | Ok bytes => decodeAudioData bytes 24000 1
  | Err e => Err e
  end.

(** App.tsx:183-186; [now] is the output context's current time when
    [node.start()] runs. *)
Definition enqueue (now : Z) (buffer : AudioBuffer) : M unit :=
  s ← get;
  let n := nextNode s in
  modify (setNextNode (Pos.succ n));;
  call (SourceStart {| node := n; calledAt := now; when := 0;
                       bufferLength := frames buffer |});;
  modify (setAudioSources (JsSet.add n)).

(** App.tsx:188-189 *)
Definition routeTranscripts (msg : LiveServerMessage) : M unit :=
  match inputTranscriptionOf msg with
  | Some t =>
      modify (setTranscriptions
                (fun p => {| input := text t; output := output p |}))
  | None => skip
  end;;
  match outputTranscriptionOf msg with
  | Some t =>
      modify (setTranscriptions
                (fun p => {| input := input p;
                             output := output p ++ text t |}))
  | None => skip
  end.

(** App.tsx:178-182, the handler up to its [await]: with an accepted
    payload it raises the speaking flag and suspends; without one
    nothing is awaited and it runs to its end (App.tsx:188-189). *)
Definition onmessage_arrived (msg : LiveServerMessage) : M unit :=
  s ← get;
  match acceptedAudio msg s with
  | Some _ => modify (setIsModelSpeaking true)
  | None => routeTranscripts msg
  end.

(** App.tsx:182-189, the handler from its [await] on: the decoding has
    settled.  When it threw, the exception leaves the handler and the
    lines after it are not run. *)
Definition onmessage_settled (now : Z) (msg : LiveServerMessage) : M unit :=
  s ← get;
  match acceptedAudio msg s with
  | Some audio =>
      match decoded audio with
      | Ok buffer => enqueue now buffer;; routeTranscripts msg
      | Err e => throw e
      end
  | None => skip
  end.

(** App.tsx:178-190 with nothing running in between. *)
Definition onmessage (now : Z) (msg : LiveServerMessage) : M unit :=
  onmessage_arrived msg;; onmessage_settled now msg.

(** App.tsx:193-200 *)
Definition onaudioprocess (data : list Js.number) : M unit :=
  modify (setUserVolume (Capture.rms data));;
  call (SendRealtimeInput
          (encodePCM (Js.Uint8Array_of_Int16Array
                        (Capture.int16_of_block data)))
          "audio/pcm;rate=16000").

(** App.tsx:290 *)
Definition onToggleLive (env : StartEnv) : M unit :=
  s ← get;
  if isLiveActive s then stopLiveSession else startLiveSession env.

Definition handle (e : Event) : M unit :=
  match e with
  | ToggleLive env => onToggleLive env
  | OverlayClose => stopLiveSession
  | OnOpen => onopen
  | OnMessage now msg => onmessage now msg
  | OnClose => stopLiveSession
  | OnError => stopLiveSession
  | OnEnded n => onended n
  | OnAudioProcess data => onaudioprocess data
  | OnMessageArrived msg => onmessage_arrived msg
  | OnDecodeSettled now msg => onmessage_settled now msg
  end.

(** The event loop: handlers run one after the other; an exception
    escaping a handler does not stop the loop. *)
Fixpoint run (evs : list Event) (s : State) : State * list Call :=
  match evs with
  | [] => (s, [])
  | e :: rest =>
      let '(_, s1, c1) := handle e s in
      let '(s2, c2) := run rest s1 in
      (s2, c1 ++ c2)
  end.

(** The states after each event of a run. *)
Fixpoint statesAfter (evs : list Event) (s : State) : list State :=
  match evs with
  | [] => []
  | e :: rest =>
      let s1 := stateOf (handle e s) in s1 :: statesAfter rest s1
  end.

End Handlers.

(** The handler of a message gets past its decoding: no payload is
    accepted, or the accepted one decodes. *)
Definition payloadDecodes {svc : GeminiService}
    (msg : LiveServerMessage) (s : State) : bool :=
  match acceptedAudio msg s with
  | Some audio => match decoded audio with Ok _ => true | Err _ => false end
  | None => true
  end.

(** The speaking flag agrees with the set of active handles. *)
Definition consistent (s : State) : Prop :=
  isModelSpeaking s = true <-> audioSourcesRef s ≠ [].

(** The events that leave no message handler suspended at its [await]
    and throw nothing from a decoding: all but a message with an
    accepted payload that is handled in two steps, or does not decode. *)
Definition settlesAtOnce {svc : GeminiService} (e : Event) (s : State)
  : bool :=
  match e with
  | OnMessage _ msg => payloadDecodes msg s
  | OnMessageArrived msg | OnDecodeSettled _ msg =>
      match acceptedAudio msg s with Some _ => false | None => true end
  | _ => true
  end.

(** A run all of whose events are of that kind. *)
Fixpoint settledRun {svc : GeminiService} {wa : WebAudio}
    (evs : list Event) (s : State) : Prop :=
  match evs with
  | [] => True
  | e :: rest =>
      settlesAtOnce e s = true /\ settledRun rest (stateOf (handle e s))
  end.

(** A message carrying only an audio payload. *)
Definition audioMessage (audio : string) : LiveServerMessage :=
  {| serverContent := Some {|
       modelTurn := Some {| parts := [ {| inlineData :=
                              Some {| data := Some audio |} |} ] |};
       inputTranscription := None;
       outputTranscription := None |} |}.

Definition inputDelta (t : string) : LiveServerMessage :=
  {| serverContent := Some {|
       modelTurn := None;
       inputTranscription := Some {| text := t |};
       outputTranscription := None |} |}.

Definition outputDelta (t : string) : LiveServerMessage :=
  {| serverContent := Some {|
       modelTurn := None;
       inputTranscription := None;
       outputTranscription := Some {| text := t |} |} |}.

(** A message carrying an audio payload and an output delta. *)
Definition audioWithOutput (audio t : string) : LiveServerMessage :=
  {| serverContent := Some {|
       modelTurn := Some {| parts := [ {| inlineData :=
                              Some {| data := Some audio |} |} ] |};
       inputTranscription := None;
       outputTranscription := Some {| text := t |} |} |}.

(** *** The playback rule as the specification words it (section 4.3) *)

(** "schedule it to start at the later of (a) now, or (b) the computed
    end time of the previously scheduled handle". *)
Definition specStart (now prevEnd : Z) : Z := Z.max now prevEnd.

(** Two play intervals [[s1, e1)] and [[s2, e2)] overlap. *)
Definition overlap (h1 h2 : PlaybackHandle) : Prop :=
  startTime h1 < endTime h2 /\ startTime h2 < endTime h1.

(** *** A concrete service and browser, for running the model *)

(** Payloads are taken byte for byte and a buffer holds one frame per
    two bytes (16-bit mono PCM); a payload of odd length is refused. *)
Definition plainService : GeminiService := {|
  encodePCM := string_of_list_byte;
  decodePCM := fun a => Ok (list_byte_of_string a);
  decodeAudioData := fun bytes _ _ =>
    if Nat.even (List.length bytes)
    then Ok {| frames := Z.of_nat (List.length bytes) / 2 |}
    else Err DecodeError
|}.

Definition quietAudio : WebAudio := {| stop_throws := fun _ => false |}.
Definition throwingAudio : WebAudio := {| stop_throws := fun _ => true |}.

Definition micGranted : StartEnv :=
  {| contextSuspended := false; microphone := Ok tt |}.
Definition micDenied : StartEnv :=
  {| contextSuspended := false; microphone := Err NotAllowedError |}.

(** A sequence of audio chunks, each handled before the next arrives;
    each comes with the output context's current time when it is
    enqueued. *)
Definition enqueueEvents (chunks : list (Z * string)) : list Event :=
  map (fun c => OnMessage (fst c) (audioMessage (snd c))) chunks.

(** Section 8, "gapless playback": each handle starts at the later of
    now and the end of the one scheduled before it, and no two play
    intervals overlap. *)
Definition gapless (hs : list PlaybackHandle) : Prop :=
  (forall i h1 h2, hs !! i = Some h1 -> hs !! S i = Some h2 ->
     startTime h2 = specStart (calledAt h2) (endTime h1))
  /\ (forall i j h1 h2, (i < j)%nat -> hs !! i = Some h1 -> hs !! j = Some h2 ->
        ~ overlap h1 h2).

(** The state after one chunk has been enqueued (App.tsx:181-186). *)
Definition enqueued (s : State) : State :=
  setAudioSources (JsSet.add (nextNode s))
    (setNextNode (Pos.succ (nextNode s)) (setIsModelSpeaking true s)).

(** Whether the payload of a chunk decodes. *)
Definition decodes {svc : GeminiService} (c : Z * string) : bool :=
  match decoded (snd c) with Ok _ => true | Err _ => false end.

(** A handle started for the chunk [c] at the chunk's own arrival time,
    playing the buffer decoded from it. *)
Definition startedAtArrival {svc : GeminiService}
    (h : PlaybackHandle) (c : Z * string) : Prop :=
  calledAt h = fst c
  /\ startTime h = fst c
  /\ exists buffer, decoded (snd c) = Ok buffer
                    /\ endTime h = fst c + frames buffer.

(** *** Teardown and start as the specification words them *)

(** Sections 4.4 and 8: after [close()] the session is [Idle], the
    volume is 0 and both transcripts are empty. *)
Definition closedAsSpecified (s : State) : Prop :=
  sessionState s = Idle
  /\ userVolume s = Js.of_Z 0
  /\ transcriptions s = emptyTranscriptions.

(** A call that fails: it ends with an error instead of a value. *)
Definition rejected {A : Type} (r : result Error A * State * list Call)
  : Prop := exists e, resultOf r = Err e.

(** The events that run [stopLiveSession] from state [s]. *)
Definition stops (e : Event) (s : State) : bool :=
  match e with
  | OverlayClose | OnClose | OnError => true
  | ToggleLive _ => isLiveActive s
  | _ => false
  end.

(** The events that run [startLiveSession] from state [s]. *)
Definition starts (e : Event) (s : State) : bool :=
  match e with
  | ToggleLive _ => negb (isLiveActive s)
  | _ => false
  end.

(** Section 3: the output transcript only grows, except at a session
    start, the one place where it is reset. *)
Definition outputResetOnlyOnStart {svc : GeminiService} {wa : WebAudio}
  : Prop :=
  forall (e : Event) (s : State),
    starts e s = false ->
    exists t, output (transcriptions (stateOf (handle e s)))
              = (output (transcriptions s) ++ t)%string.

(** The output context is created on first use and then kept
    (App.tsx:170). *)
Definition withOutputContext (s : State) : State :=
  match audioContextRef s with
  | None => setAudioContext (Some {| sampleRate := 24000 |}) s
  | Some _ => s
  end.

(** The calls of App.tsx:170-171. *)
Definition outputContextCalls (s : State) (env : StartEnv) : list Call :=
  match audioContextRef s with
  | None => [NewAudioContext 24000]
  | Some _ => []
  end ++ (if contextSuspended env then [ContextResume] else []).

(** The calls of App.tsx:173-176, made once the microphone is granted. *)
Definition connectCalls : list Call :=
  [NewAudioContext 16000; CreateMediaStreamSource;
   CreateScriptProcessor 4096 1 1; ConnectLive].

(** The state [stopLiveSession] leaves behind. *)
Definition stopped (s : State) : State :=
  {| isLiveActive := false; isModelSpeaking := false;
     userVolume := userVolume s; transcriptions := emptyTranscriptions;
     audioContextRef := audioContextRef s; liveSessionRef := liveSessionRef s;
     audioSourcesRef := []; nextNode := nextNode s |}.

Definition isSourceStop (c : Call) : bool :=
  match c with SourceStop _ => true | _ => false end.

Definition isSessionClose (c : Call) : bool :=
  match c with SessionClose _ => true | _ => false end.

End Live.


(* ================================================================== *)
(** ** Quantities observed along a run of the live session *)
(* ================================================================== *)

Module LiveAux.
Import Live.

(** The creation of the 24 kHz output context (App.tsx:170), as opposed
    to that of a 16 kHz capture context (App.tsx:173). *)
Definition isNewOutputContext (c : Call) : bool :=
  match c with
  | NewAudioContext rate => rate =? 24000
  | _ => false
  end.

(** The identities in the set of active nodes are pairwise distinct and
    all older than the next identity to be handed out. *)
Definition wellFormed (s : State) : Prop :=
  NoDup (audioSourcesRef s)
  /\ Forall (fun n => (n < nextNode s)%positive) (audioSourcesRef s).

(** Playback completions, one per node of [order]. *)
Definition endedEvents (order : list NodeId) : list Event :=
  map OnEnded order.

Definition isAudioProcess (e : Event) : bool :=
  match e with
  | OnAudioProcess _ => true
  | _ => false
  end.





End LiveAux.


(* ================================================================== *)
(** ** ECMAScript strings and arrays, as far as the chat code uses them *)
(* ================================================================== *)

Module JsText.

(** [s.includes(sub)]: [sub] occurs in [s] as a contiguous run. *)
Fixpoint includes (s sub : string) : bool :=
  String.prefix sub s
  || match s with
     | EmptyString => false
     | String _ rest => includes rest sub
     end.

(** Truthiness of a string: only [''] is falsy. *)
Definition nonEmpty (s : string) : bool :=
  match s with
  | EmptyString => false
  | String _ _ => true
  end.

(** [n.toString()] for an integral Number. *)
Definition toString (n : Z) : string := NilZero.string_of_int (Z.to_int n).

(** [toLowerCase] and [trim] follow the Unicode tables of the engine;
    they are parameters, with the one fact about them used here. *)
Class Ops : Type := {
  toLowerCase : string -> string;
  trim : string -> string;
  toLowerCase_empty : toLowerCase "" = ""%string
}.

End JsText.

Module JsArray.
Section Sort.
Context {A : Type} (compare : A -> A -> Z).

(** [arr.sort(compare)]: the sort is stable, so for a consistent
    comparator its result is the one obtained by inserting the elements
    from last to first, each before the first element that does not
    have to precede it. *)
Fixpoint insert (x : A) (l : list A) : list A :=
  match l with
  | [] => [x]
  | y :: rest =>
      if compare y x <? 0 then y :: insert x rest else x :: y :: rest
  end.

Definition sort (l : list A) : list A := fold_right insert [] l.
End Sort.

(** The comparator [(a, b) => key(b) - key(a)]: larger keys first. *)
Definition byKeyDescending {A : Type} (key : A -> Z) (a b : A) : Z :=
  key b - key a.

Definition descending {A : Type} (key : A -> Z) (l : list A) : Prop :=
  StronglySorted (fun a b => key b <= key a) l.

(** [arr.filter((_, idx) => idx !== i)] *)
Fixpoint removeAt {A : Type} (i : nat) (l : list A) : list A :=
  match l with
  | [] => []
  | x :: rest =>
      match i with
      | O => rest
      | S j => x :: removeAt j rest
      end
  end.

End JsArray.

(* ================================================================== *)
(** ** Chat threads (src types and App.tsx:11-145, 204-217, 250-253,
       288-295, 394, 451) *)
(* ================================================================== *)

Module Chat.

Inductive Role : Type := USER | MODEL | SYSTEM.

Inductive AppMode : Type :=
| roast | girlfriend | boyfriend | mentor | scientist | coder.

Inductive Theme : Type := neon | obsidian.

Module Message.
Record t : Type := {
  id : string;
  role : Role;
  text : string;
  timestamp : Z;
  attachments : option (list string);
  isImageGeneration : option bool;
  groundingMetadata : option string;
  isFavorite : option bool
}.
End Message.

Module ChatThread.
Record t : Type := {
  id : string;
  title : string;
  messages : list Message.t;
  mode : AppMode;
  lastUpdate : Z
}.
End ChatThread.

Module PersonaConfig.
Record t : Type := {
  mode : AppMode;
  sarcasm : Z;
  edge : Z;
  language : string;
  fastReply : bool;
  useSearch : bool;
  useMaps : bool
}.
End PersonaConfig.

(** The entries of [MODE_DEFAULTS] (App.tsx:11-18) set two fields. *)
Module Defaults.
Record t : Type := { sarcasm : Z; edge : Z }.
End Defaults.

Definition MODE_DEFAULTS (m : AppMode) : Defaults.t :=
  match m with
  | roast => {| Defaults.sarcasm := 98; Defaults.edge := 95 |}
  | girlfriend => {| Defaults.sarcasm := 30; Defaults.edge := 10 |}
  | boyfriend => {| Defaults.sarcasm := 20; Defaults.edge := 10 |}
  | mentor => {| Defaults.sarcasm := 5; Defaults.edge := 5 |}
  | scientist => {| Defaults.sarcasm := 0; Defaults.edge := 20 |}
  | coder => {| Defaults.sarcasm := 10; Defaults.edge := 10 |}
  end.

(** The state of [App] that the chat code reads and writes. *)
Record State : Type := {
  threads : list ChatThread.t;     (* App.tsx:21 *)
  activeThreadId : string;         (* App.tsx:24 *)
  inputText : string;              (* App.tsx:25 *)
  isTyping : bool;                 (* App.tsx:26 *)
  showSidebar : bool;              (* App.tsx:32 *)
  threadSearchQuery : string;      (* App.tsx:35 *)
  messageSearchQuery : string;     (* App.tsx:36 *)
  showOnlyFavorites : bool;        (* App.tsx:37 *)
  persona : PersonaConfig.t;       (* App.tsx:40 *)
  suggestions : list string;       (* App.tsx:44 *)
  theme : Theme;                   (* App.tsx:45 *)
  attachments : list string        (* App.tsx:46 *)
}.

(** App.tsx:21-46; [now] is [Date.now()] at the first render. *)
Definition init (now : Z) : State := {|
  threads := [ {| ChatThread.id := "initial"; ChatThread.title := "New Roast";
                  ChatThread.messages := []; ChatThread.mode := roast;
                  ChatThread.lastUpdate := now |} ];
  activeThreadId := "initial";
  inputText := "";
  isTyping := false;
  showSidebar := false;
  threadSearchQuery := "";
  messageSearchQuery := "";
  showOnlyFavorites := false;
  persona := {| PersonaConfig.mode := roast; PersonaConfig.sarcasm := 98;
                PersonaConfig.edge := 95; PersonaConfig.language := "Auto";
                PersonaConfig.fastReply := false;
                PersonaConfig.useSearch := false;
                PersonaConfig.useMaps := false |};
  suggestions := [];
  theme := neon;
  attachments := []
|}.

Definition setThreads (f : list ChatThread.t -> list ChatThread.t)
    (s : State) : State :=
  {| threads := f (threads s); activeThreadId := activeThreadId s;
     inputText := inputText s; isTyping := isTyping s;
     showSidebar := showSidebar s; threadSearchQuery := threadSearchQuery s;
     messageSearchQuery := messageSearchQuery s;
     showOnlyFavorites := showOnlyFavorites s; persona := persona s;
     suggestions := suggestions s; theme := theme s;
     attachments := attachments s |}.

Definition setActiveThreadId (i : string) (s : State) : State :=
  {| threads := threads s; activeThreadId := i;
     inputText := inputText s; isTyping := isTyping s;
     showSidebar := showSidebar s; threadSearchQuery := threadSearchQuery s;
     messageSearchQuery := messageSearchQuery s;
     showOnlyFavorites := showOnlyFavorites s; persona := persona s;
     suggestions := suggestions s; theme := theme s;
     attachments := attachments s |}.

Definition setInputText (t : string) (s : State) : State :=
  {| threads := threads s; activeThreadId := activeThreadId s;
     inputText := t; isTyping := isTyping s;
     showSidebar := showSidebar s; threadSearchQuery := threadSearchQuery s;
     messageSearchQuery := messageSearchQuery s;
     showOnlyFavorites := showOnlyFavorites s; persona := persona s;
     suggestions := suggestions s; theme := theme s;
     attachments := attachments s |}.

Definition setIsTyping (b : bool) (s : State) : State :=
  {| threads := threads s; activeThreadId := activeThreadId s;
     inputText := inputText s; isTyping := b;
     showSidebar := showSidebar s; threadSearchQuery := threadSearchQuery s;
     messageSearchQuery := messageSearchQuery s;
     showOnlyFavorites := showOnlyFavorites s; persona := persona s;
     suggestions := suggestions s; theme := theme s;
     attachments := attachments s |}.

Definition setShowSidebar (b : bool) (s : State) : State :=
  {| threads := threads s; activeThreadId := activeThreadId s;
     inputText := inputText s; isTyping := isTyping s;
     showSidebar := b; threadSearchQuery := threadSearchQuery s;
     messageSearchQuery := messageSearchQuery s;
     showOnlyFavorites := showOnlyFavorites s; persona := persona s;
     suggestions := suggestions s; theme := theme s;
     attachments := attachments s |}.

Definition setPersona (p : PersonaConfig.t) (s : State) : State :=
  {| threads := threads s; activeThreadId := activeThreadId s;
     inputText := inputText s; isTyping := isTyping s;
     showSidebar := showSidebar s; threadSearchQuery := threadSearchQuery s;
     messageSearchQuery := messageSearchQuery s;
     showOnlyFavorites := showOnlyFavorites s; persona := p;
     suggestions := suggestions s; theme := theme s;
     attachments := attachments s |}.

Definition setSuggestions (l : list string) (s : State) : State :=
  {| threads := threads s; activeThreadId := activeThreadId s;
     inputText := inputText s; isTyping := isTyping s;
     showSidebar := showSidebar s; threadSearchQuery := threadSearchQuery s;
     messageSearchQuery := messageSearchQuery s;
     showOnlyFavorites := showOnlyFavorites s; persona := persona s;
     suggestions := l; theme := theme s;
     attachments := attachments s |}.

Definition setTheme (t : Theme) (s : State) : State :=
  {| threads := threads s; activeThreadId := activeThreadId s;
     inputText := inputText s; isTyping := isTyping s;
     showSidebar := showSidebar s; threadSearchQuery := threadSearchQuery s;
     messageSearchQuery := messageSearchQuery s;
     showOnlyFavorites := showOnlyFavorites s; persona := persona s;
     suggestions := suggestions s; theme := t;
     attachments := attachments s |}.

Definition setAttachments (f : list string -> list string)
    (s : State) : State :=
  {| threads := threads s; activeThreadId := activeThreadId s;
     inputText := inputText s; isTyping := isTyping s;
     showSidebar := showSidebar s; threadSearchQuery := threadSearchQuery s;
     messageSearchQuery := messageSearchQuery s;
     showOnlyFavorites := showOnlyFavorites s; persona := persona s;
     suggestions := suggestions s; theme := theme s;
     attachments := f (attachments s) |}.

(** [{ ...t, messages: ms }] and [{ ...t, messages: ms, lastUpdate: u }] *)
Definition withMessages (ms : list Message.t) (t : ChatThread.t)
  : ChatThread.t :=
  {| ChatThread.id := ChatThread.id t; ChatThread.title := ChatThread.title t;
     ChatThread.messages := ms; ChatThread.mode := ChatThread.mode t;
     ChatThread.lastUpdate := ChatThread.lastUpdate t |}.

Definition withLastUpdate (u : Z) (t : ChatThread.t) : ChatThread.t :=
  {| ChatThread.id := ChatThread.id t; ChatThread.title := ChatThread.title t;
     ChatThread.messages := ChatThread.messages t;
     ChatThread.mode := ChatThread.mode t; ChatThread.lastUpdate := u |}.

(** [{ ...m, isFavorite: b }] *)
Definition withFavorite (b : bool) (m : Message.t) : Message.t :=
  {| Message.id := Message.id m; Message.role := Message.role m;
     Message.text := Message.text m; Message.timestamp := Message.timestamp m;
     Message.attachments := Message.attachments m;
     Message.isImageGeneration := Message.isImageGeneration m;
     Message.groundingMetadata := Message.groundingMetadata m;
     Message.isFavorite := Some b |}.

(** Truthiness of the optional flag [m.isFavorite]. *)
Definition favorite (m : Message.t) : bool :=
  match Message.isFavorite m with
  | Some b => b
  | None => false
  end.

Definition emptyThread (i t : string) (m : AppMode) (now : Z)
  : ChatThread.t :=
  {| ChatThread.id := i; ChatThread.title := t; ChatThread.messages := [];
     ChatThread.mode := m; ChatThread.lastUpdate := now |}.

(** App.tsx:72-74: the thread with the active id, else the first
    thread, else a placeholder. *)
Definition activeThread (now : Z) (s : State) : ChatThread.t :=
  match find (fun t => (ChatThread.id t =? activeThreadId s)%string)
             (threads s) with
  | Some t => t
  | None =>
      match threads s with
      | t :: _ => t
      | [] => emptyThread "fallback" "Fallback" roast now
      end
  end.

(** App.tsx:76-85; [i] is the identifier drawn from [Math.random()]. *)
Definition createNewChat (i : string) (now innerWidth : Z) (s : State)
  : State :=
  let newThread :=
    emptyThread i "New Session" (PersonaConfig.mode (persona s)) now in
  let s1 := setThreads (fun _ => newThread :: threads s) s in
  let s2 := setActiveThreadId i s1 in
  let s3 := setSuggestions [] s2 in
  if innerWidth <? 1024 then setShowSidebar false s3 else s3.

(** App.tsx:87-98 *)
Definition deleteThread (i : string) (now : Z) (s : State) : State :=
  let filtered :=
    List.filter (fun t => negb (ChatThread.id t =? i)%string) (threads s) in
  match filtered with
  | [] =>
      setActiveThreadId "reset"
        (setThreads
           (fun _ => [emptyThread "reset" "New Session" roast now]) s)
  | first :: _ =>
      let s1 := setThreads (fun _ => filtered) s in
      if (activeThreadId s =? i)%string
      then setActiveThreadId (ChatThread.id first) s1
      else s1
  end.

(** App.tsx:100-105 *)
Definition toggleFavorite (messageId : string) (s : State) : State :=
  setThreads
    (map (fun t =>
       withMessages
         (map (fun m =>
            if (Message.id m =? messageId)%string
            then withFavorite (negb (favorite m)) m
            else m) (ChatThread.messages t)) t)) s.

(** App.tsx:107-114; [file] is the data URL the reader produces for the
    chosen file, if one was chosen. *)
Definition handleImageUpload (file : option string) (s : State) : State :=
  match file with
  | Some dataUrl => setAttachments (fun prev => prev ++ [dataUrl]) s
  | None => s
  end.

(** App.tsx:394 *)
Definition removeAttachment (i : nat) (s : State) : State :=
  setAttachments (fun _ => JsArray.removeAt i (attachments s)) s.

(** App.tsx:295 *)
Definition onClearChat (s : State) : State :=
  setThreads
    (map (fun t =>
       if (ChatThread.id t =? activeThreadId s)%string
       then withMessages [] t else t)) s.

(** App.tsx:253, a click on the [i]-th thread of the sidebar list
    [shown], in a window [innerWidth] pixels wide. *)
Definition selectThread (shown : list ChatThread.t) (i : nat)
    (innerWidth : Z) (s : State) : State :=
  match nth_error shown i with
  | Some t =>
      let s1 := setActiveThreadId (ChatThread.id t) s in
      if innerWidth <? 1024 then setShowSidebar false s1 else s1
  | None => s
  end.

(** App.tsx:451 *)
Definition selectMode (m : AppMode) (s : State) : State :=
  setPersona
    {| PersonaConfig.mode := m;
       PersonaConfig.sarcasm := Defaults.sarcasm (MODE_DEFAULTS m);
       PersonaConfig.edge := Defaults.edge (MODE_DEFAULTS m);
       PersonaConfig.language := PersonaConfig.language (persona s);
       PersonaConfig.fastReply := PersonaConfig.fastReply (persona s);
       PersonaConfig.useSearch := PersonaConfig.useSearch (persona s);
       PersonaConfig.useMaps := PersonaConfig.useMaps (persona s) |} s.

(** App.tsx:124, the update applied to each thread:
    [t.id === activeThreadId ? { ...t, messages, lastUpdate } : t]. *)
Definition submitted (updated : list Message.t) (u : Z) (a : string)
    (t : ChatThread.t) : ChatThread.t :=
  if (ChatThread.id t =? a)%string
  then withLastUpdate u (withMessages updated t) else t.

(** App.tsx:144, the update applied to each thread:
    [t.id === activeThreadId ? { ...t, messages: [...t.messages, m] } : t]. *)
Definition replied (m : Message.t) (a : string) (t : ChatThread.t)
  : ChatThread.t :=
  if (ChatThread.id t =? a)%string
  then withMessages (ChatThread.messages t ++ [m]) t else t.

(** The readings of [Date.now()] in App.tsx:121-124 and 142-143. *)
Record SubmitClock : Type := {
  idNow : Z;
  timestampNow : Z;
  updateNow : Z;
  aiIdNow : Z;
  aiTimestampNow : Z
}.

(** App.tsx:142-143, the model message that the streamed reply will
    fill in. *)
Definition modelMessage (clock : SubmitClock) : Message.t :=
  {| Message.id := "ai-" ++ JsText.toString (aiIdNow clock);
     Message.role := MODEL; Message.text := "";
     Message.timestamp := aiTimestampNow clock;
     Message.attachments := None; Message.isImageGeneration := None;
     Message.groundingMetadata := None; Message.isFavorite := None |}.

Section Text.
Context {ops : JsText.Ops}.

(** App.tsx:118, [(overrideText || inputText).trim()] *)
Definition submittedText (overrideText : option string) (s : State)
  : string :=
  JsText.trim
    match overrideText with
    | Some (String a r) => String a r
    | _ => inputText s
    end.

(** App.tsx:121 *)
Definition userMessage (text : string) (clock : SubmitClock) (s : State)
  : Message.t :=
  {| Message.id := JsText.toString (idNow clock); Message.role := USER;
     Message.text := text; Message.timestamp := timestampNow clock;
     Message.attachments := Some (attachments s);
     Message.isImageGeneration := None; Message.groundingMetadata := None;
     Message.isFavorite := None |}.

(** App.tsx:130, the test for an image command. *)
Definition isImageRequest (text : string) : bool :=
  String.prefix "/gen " (JsText.toLowerCase text)
  || String.prefix "generate " (JsText.toLowerCase text).

(** App.tsx:116-145, [handleSendMessage] up to its first [await], all of
    which is one state update: the guard; the user message appended to
    the active thread, the input cleared and the typing flag raised;
    then, inside the [try], either the image request is made and awaited
    (App.tsx:130-132), or the chat is set up and the empty model message
    appended before the stream is awaited (App.tsx:139-146).
    [serviceThrows] tells whether a call on the service (App.tsx:132,
    139, 141; the service is not among the sources) throws before
    anything is awaited: the [catch] logs it and the [finally] lowers
    the typing flag. *)
Definition handleSendMessage_submit (overrideText : option string)
    (clock : SubmitClock) (serviceThrows : bool) (now : Z) (s : State)
  : State :=
  let text := submittedText overrideText s in
  if negb (JsText.nonEmpty text)
     && Nat.eqb (List.length (attachments s)) 0
  then s
  else
    let updatedMessages :=
      ChatThread.messages (activeThread now s) ++ [userMessage text clock s] in
    let s1 :=
      setThreads
        (map (submitted updatedMessages (updateNow clock) (activeThreadId s)))
        s in
    let s2 :=
      setIsTyping true (setAttachments (fun _ => []) (setInputText "" s1)) in
    if serviceThrows then setIsTyping false s2
    else if isImageRequest text then s2
    else
      setThreads (map (replied (modelMessage clock) (activeThreadId s))) s2.

(** One thread passes the sidebar search (App.tsx:207-210). *)
Definition threadMatches (query : string) (t : ChatThread.t) : bool :=
  JsText.includes (JsText.toLowerCase (ChatThread.title t))
                  (JsText.toLowerCase query)
  || existsb (fun m => JsText.includes (JsText.toLowerCase (Message.text m))
                                        (JsText.toLowerCase query))
             (ChatThread.messages t).

(** App.tsx:207-210 *)
Definition filteredThreads (s : State) : list ChatThread.t :=
  List.filter (threadMatches (threadSearchQuery s)) (threads s).

(** App.tsx:250, the list the sidebar shows: most recently updated
    first. *)
Definition sidebarThreads (s : State) : list ChatThread.t :=
  JsArray.sort
    (fun a b => ChatThread.lastUpdate b - ChatThread.lastUpdate a)
    (filteredThreads s).

(** App.tsx:213-217 *)
Definition filteredMessages (now : Z) (s : State) : list Message.t :=
  List.filter
    (fun m =>
       let matchesSearch :=
         JsText.includes (JsText.toLowerCase (Message.text m))
                         (JsText.toLowerCase (messageSearchQuery s)) in
       let matchesFavorite :=
         if showOnlyFavorites s then favorite m else true in
       matchesSearch && matchesFavorite)
    (ChatThread.messages (activeThread now s)).

End Text.

(** *** Persistence (App.tsx:53-70) *)

(** The object written to and parsed from local storage; a field may be
    missing from what is found there. *)
Module Saved.
Record t : Type := {
  threads : option (list ChatThread.t);
  activeThreadId : option string;
  persona : option PersonaConfig.t;
  theme : option Theme
}.
End Saved.

(** App.tsx:68-70 *)
Definition saveState (s : State) : Saved.t :=
  {| Saved.threads := Some (threads s);
     Saved.activeThreadId := Some (activeThreadId s);
     Saved.persona := Some (persona s);
     Saved.theme := Some (theme s) |}.

(** App.tsx:53-66; [item] is what [localStorage.getItem] returns, parsed:
    nothing, text that does not parse, or a saved object. *)
Definition loadState (item : option (result unit Saved.t)) (s : State)
  : State :=
  match item with
  | Some (Ok parsed) =>
      let s1 :=
        match Saved.threads parsed with
        | Some (first :: rest) =>
            setActiveThreadId
              match Saved.activeThreadId parsed with
              | Some (String a r) => String a r
              | _ => ChatThread.id first
              end
              (setThreads (fun _ => first :: rest) s)
        | _ => s
        end in
      let s2 :=
        match Saved.persona parsed with
        | Some p => setPersona p s1
        | None => s1
        end in
      match Saved.theme parsed with
      | Some t => setTheme t s2
      | None => s2
      end
  | _ => s
  end.

(** *** What the chat code is expected to keep *)

(** A thread of the list carries the active id. *)
Definition activeExists (s : State) : Prop :=
  exists t, t ∈ threads s /\ ChatThread.id t = activeThreadId s.

(** The operations on threads a user can trigger. *)
Inductive Action : Type :=
| NewChat (i : string) (now innerWidth : Z)
| Delete (i : string) (now : Z)
| Select (i : nat) (innerWidth : Z)
| ToggleFavorite (messageId : string)
| ClearChat
| Submit (overrideText : option string) (clock : SubmitClock)
    (serviceThrows : bool) (now : Z).

Definition act {ops : JsText.Ops} (a : Action) (s : State) : State :=
  match a with
  | NewChat i now w => createNewChat i now w s
  | Delete i now => deleteThread i now s
  | Select i w => selectThread (sidebarThreads s) i w s
  | ToggleFavorite mid => toggleFavorite mid s
  | ClearChat => onClearChat s
  | Submit o clock throws now => handleSendMessage_submit o clock throws now s
  end.

Definition acts {ops : JsText.Ops} (l : list Action) (s : State) : State :=
  fold_left (fun st a => act a st) l s.

(** Two messages that differ at most in their favourite flag. *)
Definition sameButFavorite (m m' : Message.t) : Prop :=
  withFavorite false m = withFavorite false m'.

(** Letters A to Z to lower case and white space stripped at both
    ends: the engine's functions on plain ASCII text, for running the
    model. *)
Definition asciiLower (c : Ascii.ascii) : Ascii.ascii :=
  let n := Ascii.nat_of_ascii c in
  if (Nat.leb 65 n && Nat.leb n 90)%bool then Ascii.ascii_of_nat (n + 32) else c.

Fixpoint lowerAscii (s : string) : string :=
  match s with
  | EmptyString => EmptyString
  | String c r => String (asciiLower c) (lowerAscii r)
  end.

(** The white space of ASCII: tab, line feed, vertical tab, form feed,
    carriage return and space. *)
Definition isBlank (c : Ascii.ascii) : bool :=
  let n := Ascii.nat_of_ascii c in
  (Nat.leb 9 n && Nat.leb n 13) || Nat.eqb n 32.

Fixpoint dropBlanks (s : string) : string :=
  match s with
  | String c r => if isBlank c then dropBlanks r else s
  | EmptyString => s
  end.

Fixpoint reverse (s : string) : string :=
  match s with
  | EmptyString => EmptyString
  | String c r => (reverse r ++ String c EmptyString)%string
  end.

Definition asciiOps : JsText.Ops := {|
  JsText.toLowerCase := lowerAscii;
  JsText.trim := fun s => reverse (dropBlanks (reverse (dropBlanks s)));
  JsText.toLowerCase_empty := eq_refl
|}.

End Chat.


(* ================================================================== *)
(** * Properties *)
(* ================================================================== *)

(** ** Bytes and 16-bit patterns *)

Section Bytes.

Lemma byte_val_range (b : byte) : 0 <= Js.byte_val b < 256.
Proof.
  unfold Js.byte_val. pose proof (Byte.to_N_bounded b) as Hb.
  split; [apply N2Z.is_nonneg|]. lia.
Qed.

Lemma byte_of_val (b : byte) : Js.byte_of (Js.byte_val b) = b.
Proof.
  unfold Js.byte_of. rewrite Z.mod_small by apply byte_val_range.
  unfold Js.byte_val. rewrite N2Z.id, Byte.of_to_N. reflexivity.
Qed.

Lemma byte_val_of (z : Z) : Js.byte_val (Js.byte_of z) = z mod 256.
Proof.
  unfold Js.byte_of, Js.byte_val.
  pose proof (Z.mod_pos_bound z 256 ltac:(lia)) as Hz.
  destruct (Byte.of_N (Z.to_N (z mod 256))) as [b|] eqn:E.
  - apply Byte.to_of_N in E. rewrite E. lia.
  - apply Byte.of_N_None_iff in E. lia.
Qed.

Lemma signed16_mod (u : Z) : 0 <= u < 65536 -> Js.signed16 u mod 65536 = u.
Proof.
  intros Hu. unfold Js.signed16. destruct (Z.ltb_spec u 32768).
  - apply Z.mod_small. lia.
  - replace (u - 65536) with (u + (-1) * 65536) by ring.
    rewrite Z.mod_add by lia. apply Z.mod_small. lia.
Qed.

Lemma signed16_range (u : Z) :
  0 <= u < 65536 -> -32768 <= Js.signed16 u <= 32767.
Proof.
  intros Hu. unfold Js.signed16. destruct (Z.ltb_spec u 32768); lia.
Qed.

Lemma mod_signed16 (s : Z) :
  -32768 <= s <= 32767 -> Js.signed16 (s mod 65536) = s.
Proof.
  intros Hs. unfold Js.signed16.
  destruct (Z.le_gt_cases 0 s) as [Hpos|Hneg].
  - rewrite Z.mod_small by lia. destruct (Z.ltb_spec s 32768); lia.
  - replace (s mod 65536) with (s + 65536).
    + destruct (Z.ltb_spec (s + 65536) 32768); lia.
    + symmetry. replace s with (s + 65536 + (-1) * 65536) at 1 by ring.
      rewrite Z.mod_add by lia. apply Z.mod_small. lia.
Qed.

End Bytes.

(** ** The PCM codec *)

Module CodecFacts.
Import Codec.

Lemma encode_sample_of_pair (lo hi : byte) :
  encode_sample (Js.signed16 (Js.byte_val lo + 256 * Js.byte_val hi)) = [lo; hi].
Proof.
  pose proof (byte_val_range lo) as Hlo. pose proof (byte_val_range hi) as Hhi.
  unfold encode_sample. cbv zeta. rewrite signed16_mod by lia.
  replace (Js.byte_val lo + 256 * Js.byte_val hi)
    with (Js.byte_val lo + Js.byte_val hi * 256) by ring.
  rewrite Z.mod_add, Z.div_add by lia.
  rewrite (Z.mod_small (Js.byte_val lo)), (Z.div_small (Js.byte_val lo)) by lia.
  rewrite Z.add_0_l, !byte_of_val. reflexivity.
Qed.

Lemma decode_encode_sample (s : Z) (rest : list byte) :
  int16 s ->
  decode (encode_sample s ++ rest) =
    match decode rest with Ok l => Ok (s :: l) | Err e => Err e end.
Proof.
  intros Hs. unfold encode_sample. cbv zeta. cbn [app decode].
  rewrite !byte_val_of, Z.mod_mod by lia.
  pose proof (Z.mod_pos_bound s 65536 ltac:(lia)) as Hu.
  rewrite (Z.mod_small (s mod 65536 / 256)).
  2:{ split; [apply Z.div_pos; lia | apply Z.div_lt_upper_bound; lia]. }
  replace (s mod 65536 mod 256 + 256 * (s mod 65536 / 256)) with (s mod 65536).
  2:{ rewrite Z.add_comm. apply Z.div_mod. lia. }
  rewrite mod_signed16 by exact Hs. reflexivity.
Qed.

(** Decoding consumes the bytes two by two: an induction principle that
    follows it. *)
Lemma pairs_ind (P : list byte -> Prop) :
  P [] -> (forall x, P [x]) ->
  (forall lo hi rest, P rest -> P (lo :: hi :: rest)) ->
  forall b, P b.
Proof.
  intros H0 H1 H2.
  fix IH 1. intros [|lo [|hi rest]]; [exact H0 | apply H1 | apply H2, IH].
Qed.

Lemma decode_even (b : list byte) :
  Nat.even (List.length b) = true ->
  exists samples,
    decode b = Ok samples /\ Forall int16 samples /\ encode samples = b.
Proof.
  induction b as [| x | lo hi rest IH] using pairs_ind; intros Hev.
  - exists []. repeat split; constructor.
  - discriminate Hev.
  - destruct (IH Hev) as (samples & Hd & Hr & He).
    exists (Js.signed16 (Js.byte_val lo + 256 * Js.byte_val hi) :: samples).
    cbn [decode]. rewrite Hd. split; [reflexivity|]. split.
    + constructor; [|exact Hr]. apply signed16_range.
      pose proof (byte_val_range lo). pose proof (byte_val_range hi). lia.
    + change (encode (?s :: samples)) with (encode_sample s ++ encode samples).
      rewrite encode_sample_of_pair, He. reflexivity.
Qed.

Lemma decode_odd (b : list byte) :
  Nat.even (List.length b) = false -> decode b = Err MalformedFrame.
Proof.
  induction b as [| x | lo hi rest IH] using pairs_ind; intros Hodd.
  - discriminate Hodd.
  - reflexivity.
  - cbn [decode]. rewrite (IH Hodd). reflexivity.
Qed.

Lemma decode_encode (samples : list Z) :
  Forall int16 samples -> decode (encode samples) = Ok samples.
Proof.
  induction 1 as [| s l Hs Hl IH]; [reflexivity|].
  change (encode (s :: l)) with (encode_sample s ++ encode l).
  rewrite decode_encode_sample by exact Hs. rewrite IH. reflexivity.
Qed.

(** C9. For every byte sequence [b] of even length, decoding succeeds and
    encoding the decoded samples gives [b] back; conversely every
    sequence of 16-bit samples is recovered by decoding its encoding, so
    the two are mutual inverses on even-length inputs. *)
Theorem codec_roundtrip (b : list byte) (samples : list Z) :
  Nat.even (List.length b) = true ->
  Forall int16 samples ->
  (exists decoded, decode b = Ok decoded /\ encode decoded = b)
  /\ Nat.even (List.length (encode samples)) = true
  /\ decode (encode samples) = Ok samples.
Proof.
  intros Hb Hs. split; [|split].
  - destruct (decode_even b Hb) as (d & Hd & _ & He). eauto.
  - clear Hs. induction samples as [|s l IH]; [reflexivity|].
    change (encode (s :: l)) with (encode_sample s ++ encode l).
    exact IH.
  - apply decode_encode, Hs.
Qed.

Lemma codec_roundtrip_witness :
  (exists decoded,
      decode [x01; x80; xff; x7f] = Ok decoded
      /\ encode decoded = [x01; x80; xff; x7f])
  /\ Nat.even (List.length (encode [-32768; 32767; -1])) = true
  /\ decode (encode [-32768; 32767; -1]) = Ok [-32768; 32767; -1].
Proof.
  apply (codec_roundtrip [x01; x80; xff; x7f] [-32768; 32767; -1]).
  - reflexivity.
  - repeat constructor; unfold int16; lia.
Defined.

End CodecFacts.


(** ** Numbers: scaling a sample by 32768 and storing it as int16 *)

Module NumberFacts.

Lemma iter_pos_nat {A} (f : A -> A) (p : positive) (x : A) :
  iter_pos f p x = Nat.iter (Pos.to_nat p) f x.
Proof.
  revert x. induction p as [p IH | p IH |]; intros x; cbn [iter_pos].
  - rewrite !IH, Pos2Nat.inj_xI.
    replace (S (2 * Pos.to_nat p)) with (Pos.to_nat p + (Pos.to_nat p + 1))%nat by lia.
    rewrite !Nat.iter_add. reflexivity.
  - rewrite !IH, Pos2Nat.inj_xO.
    replace (2 * Pos.to_nat p)%nat with (Pos.to_nat p + Pos.to_nat p)%nat by lia.
    rewrite Nat.iter_add. reflexivity.
  - reflexivity.
Qed.

Lemma shr_1_exact_iter (n : nat) (p : positive) :
  Nat.iter n shr_1 (Build_shr_record (Zpos (Pos.shiftl_nat p n)) false false)
  = Build_shr_record (Zpos p) false false.
Proof.
  revert p. induction n as [|n IH]; intros p; [reflexivity|].
  rewrite Nat.iter_succ_r. cbn [Pos.shiftl_nat nat_rect shr_1 orb].
  apply IH.
Qed.

Lemma shiftl_nat_add (p : positive) (a b : nat) :
  Pos.shiftl_nat p (a + b) = Pos.shiftl_nat (Pos.shiftl_nat p b) a.
Proof.
  induction a as [|a IH]; [reflexivity|].
  cbn [Nat.add Pos.shiftl_nat nat_rect]. f_equal. exact IH.
Qed.

Lemma mul_shiftl_nat (m : positive) (k : nat) :
  Pos.mul m (Pos.shiftl_nat 1 k) = Pos.shiftl_nat m k.
Proof.
  induction k as [|k IH]; cbn [Pos.shiftl_nat nat_rect].
  - apply Pos.mul_1_r.
  - rewrite Pos.mul_xO_r. f_equal. exact IH.
Qed.

Lemma digits2_shiftl_nat (m : positive) (k : nat) :
  Zpos (digits2_pos (Pos.shiftl_nat m k)) = Zpos (digits2_pos m) + Z.of_nat k.
Proof.
  induction k as [|k IH]; cbn [Pos.shiftl_nat nat_rect digits2_pos].
  - lia.
  - rewrite Pos2Z.inj_succ. 
    change (nat_rect _ m (fun _ => xO) k) with (Pos.shiftl_nat m k). lia.
Qed.

Lemma shiftl_nat_val (m : positive) (k : nat) :
  Zpos (Pos.shiftl_nat m k) = Zpos m * 2 ^ Z.of_nat k.
Proof.
  induction k as [|k IH]; cbn [Pos.shiftl_nat nat_rect].
  - cbn. lia.
  - change (nat_rect _ m (fun _ => xO) k) with (Pos.shiftl_nat m k).
    rewrite Pos2Z.inj_xO, IH, Nat2Z.inj_succ, Z.pow_succ_r by lia. ring.
Qed.

(** Shifting an exact record right by [n] places when the mantissa ends
    in at least [n] zeros. *)
Lemma shr_exact (p : positive) (e n : Z) :
  0 <= n ->
  shr (Build_shr_record (Zpos (Pos.shiftl_nat p (Z.to_nat n))) false false) e n
  = (Build_shr_record (Zpos p) false false, e + n).
Proof.
  intros Hn. destruct n as [|q|q]; [| |lia].
  - cbn. f_equal. lia.
  - cbn [shr]. rewrite iter_pos_nat. rewrite Z2Nat.inj_pos. 
    rewrite shr_1_exact_iter. reflexivity.
Qed.

Lemma mul_scale_finite (s : bool) (m : positive) (e : Z) :
  let d := Zpos (digits2_pos m) in
  let n := Z.max (d - 1) (- 1037 - e) in
  d <= 53 -> - 1074 <= e -> d + e <= 1 ->
  Js.mul (S754_finite s m e) Capture.scale
  = S754_finite s (Pos.shiftl_nat m (Z.to_nat (52 - n))) (e - 37 + n).
Proof.
  intros d n Hd He Hde.
  assert (Hd1 : 1 <= d) by (unfold d; lia).
  assert (Hn : 0 <= n <= 52) by (unfold n; lia).
  unfold Js.mul, SFmul. change Capture.scale with (S754_finite false 4503599627370496 (-37)).
  cbv iota beta. rewrite xorb_false_r.
  change 4503599627370496%positive with (Pos.shiftl_nat 1 52).
  rewrite mul_shiftl_nat.
  replace 52%nat with (Z.to_nat n + Z.to_nat (52 - n))%nat by lia.
  rewrite shiftl_nat_add.
  set (m' := Pos.shiftl_nat m (Z.to_nat (52 - n))).
  assert (Hm' : Zpos (digits2_pos m') = d + (52 - n)).
  { unfold m'. rewrite digits2_shiftl_nat. fold d. lia. }
  unfold binary_round_aux, shr_fexp, shr_record_of_loc.
  cbn [Zdigits2]. rewrite digits2_shiftl_nat, Hm'.
  replace (fexp Js.prec Js.emax (d + (52 - n) + Z.of_nat (Z.to_nat n) + (e + -37)) - (e + -37)) with n.
  2:{ unfold fexp, emin, Js.prec, Js.emax. rewrite Z2Nat.id by lia. unfold n. lia. }
  rewrite shr_exact by lia.
  cbn [shr_m loc_of_shr_record round_nearest_even Zdigits2].
  rewrite Hm'.
  replace (fexp Js.prec Js.emax (d + (52 - n) + (e + -37 + n)) - (e + -37 + n)) with 0.
  2:{ unfold fexp, emin, Js.prec, Js.emax. unfold n. lia. }
  cbn [shr shr_m].
  replace (e + -37 + n <=? Js.emax - Js.prec) with true.
  2:{ symmetry. apply Z.leb_le. unfold n, Js.emax, Js.prec. lia. }
  reflexivity.
Qed.

Lemma cond_Zopp_mul (s : bool) (a b : Z) :
  cond_Zopp s (a * b) = cond_Zopp s a * b.
Proof. destruct s; cbn; ring. Qed.

Lemma Qpow2_nonneg (k : Z) : (0 <= k)%Z -> (inject_Z (2 ^ k) == 2 ^ k)%Q.
Proof. intros Hk. apply (Zpower_Qpower 2 k Hk). Qed.

Lemma Qpow2_pos (k : Z) : (0 < 2 ^ k)%Q.
Proof. apply Qpower_0_lt. reflexivity. Qed.

(** Trading trailing zeros of the mantissa for the exponent keeps the
    value. *)
Lemma value_shift (s : bool) (m : positive) (e : Z) (k : nat) :
  (Js.value (S754_finite s (Pos.shiftl_nat m k) (e - Z.of_nat k))
   == Js.value (S754_finite s m e))%Q.
Proof.
  cbn [Js.value]. rewrite shiftl_nat_val, cond_Zopp_mul, inject_Z_mult.
  rewrite Qpow2_nonneg by lia.
  rewrite <- Qmult_assoc. apply Qmult_comp; [reflexivity|].
  rewrite <- Qpower_plus by discriminate.
  replace (Z.of_nat k + (e - Z.of_nat k)) with e by lia. reflexivity.
Qed.

Lemma value_scale (s : bool) (m : positive) (e : Z) :
  (Js.value (S754_finite s m (e + 15)) == Js.value (S754_finite s m e) * 32768)%Q.
Proof.
  cbn [Js.value]. rewrite Qpower_plus by discriminate.
  rewrite Qmult_assoc. apply Qmult_comp; reflexivity.
Qed.

Lemma value_nonneg (m : positive) (e : Z) :
  (0 < Js.value (S754_finite false m e))%Q.
Proof.
  cbn [Js.value cond_Zopp]. apply Qmult_lt_0_compat; [reflexivity | apply Qpow2_pos].
Qed.

Lemma value_opp (s : bool) (m : positive) (e : Z) :
  (Js.value (S754_finite (negb s) m e) == - Js.value (S754_finite s m e))%Q.
Proof.
  cbn [Js.value]. destruct s; cbn [negb cond_Zopp]; 
  rewrite ?Pos2Z.opp_pos; change (Z.neg m) with (- Z.pos m); rewrite ?inject_Z_opp; ring.
Qed.

Lemma truncate_pos (m : positive) (e : Z) :
  Js.truncate (S754_finite false m e) = Qfloor (Js.value (S754_finite false m e)).
Proof.
  cbn [Js.truncate Js.value cond_Zopp]. destruct (Z.leb_spec 0 e) as [He|He].
  - rewrite <- Qpow2_nonneg, <- inject_Z_mult by exact He.
    symmetry. apply Qfloor_Z.
  - replace e with (- (- e)) at 2 by lia.
    rewrite Qpower_opp, <- Qpow2_nonneg by lia.
    symmetry. rewrite Zdiv_Qdiv. reflexivity.
Qed.

Lemma truncate_value (x : spec_float) : Js.truncate x = Js.Qtrunc (Js.value x).
Proof.
  destruct x as [s|s| |s m e]; try reflexivity.
  destruct s.
  - unfold Js.Qtrunc. 
    pose proof (value_nonneg m e) as Hp.
    pose proof (value_opp false m e) as Ho. cbn [negb] in Ho.
    replace (Qle_bool 0 (Js.value (S754_finite true m e))) with false.
    2:{ symmetry. apply not_true_is_false. intros H. apply Qle_bool_iff in H.
        rewrite Ho in H. apply (Qlt_irrefl 0). 
        eapply Qlt_le_trans; [exact Hp|]. 
        apply Qopp_le_compat in H. rewrite Qopp_involutive in H. exact H. }
    unfold Qceiling. rewrite Ho, Qopp_involutive, <- truncate_pos.
    reflexivity.
  - unfold Js.Qtrunc. 
    replace (Qle_bool 0 (Js.value (S754_finite false m e))) with true.
    + apply truncate_pos.
    + symmetry. apply Qle_bool_iff, Qlt_le_weak, value_nonneg.
Qed.

Lemma digits2_lower (m : positive) : 2 ^ (Zpos (digits2_pos m) - 1) <= Zpos m.
Proof.
  induction m as [p IH | p IH |]; cbn [digits2_pos].
  - rewrite Pos2Z.inj_succ, (Pos2Z.inj_xI p).
    replace (Z.succ (Zpos (digits2_pos p)) - 1)
      with (Z.succ (Zpos (digits2_pos p) - 1)) by lia.
    rewrite Z.pow_succ_r by lia. lia.
  - rewrite Pos2Z.inj_succ, (Pos2Z.inj_xO p).
    replace (Z.succ (Zpos (digits2_pos p)) - 1)
      with (Z.succ (Zpos (digits2_pos p) - 1)) by lia.
    rewrite Z.pow_succ_r by lia. lia.
  - cbn. lia.
Qed.

(** A finite binary64 mantissa has at most 53 digits and its exponent is
    at least that of the subnormals. *)
Lemma is_number_finite (s : bool) (m : positive) (e : Z) :
  Js.is_number (S754_finite s m e) = true ->
  Zpos (digits2_pos m) <= 53 /\ -1074 <= e.
Proof.
  unfold Js.is_number, valid_binary, bounded, canonical_mantissa, fexp, emin,
    Js.prec, Js.emax.
  intros H. apply andb_true_iff in H as [H _]. apply Z.eqb_eq in H. lia.
Qed.

Lemma magnitude_le_1 (s : bool) (m : positive) (e : Z) :
  (-1 <= Js.value (S754_finite s m e) <= 1)%Q ->
  (Js.value (S754_finite false m e) <= 1)%Q.
Proof.
  intros [Hlo Hhi]. destruct s; [|exact Hhi].
  pose proof (value_opp false m e) as Ho. cbn [negb] in Ho.
  rewrite Ho in Hlo. apply Qopp_le_compat in Hlo.
  rewrite Qopp_involutive in Hlo. exact Hlo.
Qed.

(** A value of magnitude at most 1 has its leading digit at or below the
    units. *)
Lemma unit_range_exponent (s : bool) (m : positive) (e : Z) :
  (-1 <= Js.value (S754_finite s m e) <= 1)%Q ->
  Zpos (digits2_pos m) + e <= 1.
Proof.
  intros H. apply magnitude_le_1 in H.
  destruct (Z.le_gt_cases (Zpos (digits2_pos m) + e) 1) as [Hle|Hgt]; [exact Hle|].
  exfalso. set (d := Zpos (digits2_pos m)) in *.
  assert (Hk : (1 < 2 ^ (d - 1 + e))%Q) by (apply Qpower_1_lt; [reflexivity | lia]).
  apply (Qlt_irrefl 1). eapply Qlt_le_trans; [exact Hk|].
  eapply Qle_trans; [|exact H].
  cbn [Js.value cond_Zopp]. rewrite Qpower_plus by discriminate.
  apply Qmult_le_compat_r; [|apply Qlt_le_weak, Qpow2_pos].
  rewrite <- Qpow2_nonneg by (unfold d; lia).
  rewrite <- Zle_Qle. apply digits2_lower.
Qed.

(** Multiplying a Number of magnitude at most 1 by 32768 is exact. *)
Lemma value_mul_scale (x : Js.number) :
  Js.is_number x = true -> Js.finite x = true ->
  (-1 <= Js.value x <= 1)%Q ->
  Js.finite (Js.mul x Capture.scale) = true
  /\ (Js.value (Js.mul x Capture.scale) == Js.value x * 32768)%Q.
Proof.
  intros Hnum Hfin Hrange.
  destruct x as [s|s| |s m e]; try discriminate Hfin.
  - split; reflexivity.
  - destruct (is_number_finite s m e Hnum) as [Hd He].
    pose proof (unit_range_exponent s m e Hrange) as Hde.
    rewrite (mul_scale_finite s m e Hd He Hde). split; [reflexivity|].
    set (n := Z.max (Zpos (digits2_pos m) - 1) (- 1037 - e)).
    assert (Hn : 0 <= n <= 52) by (unfold n; lia).
    replace (e - 37 + n) with (e + 15 - Z.of_nat (Z.to_nat (52 - n))) by lia.
    rewrite value_shift. apply value_scale.
Qed.

Lemma Qtrunc_comp (p q : Q) : (p == q)%Q -> Js.Qtrunc p = Js.Qtrunc q.
Proof.
  intros H. unfold Js.Qtrunc.
  rewrite (Qleb_comp 0%Q 0%Q (Qeq_refl 0%Q) p q H).
  destruct (Qle_bool 0 q); [apply Qfloor_comp | apply Qceiling_comp]; exact H.
Qed.

Lemma Qtrunc_bounds (q : Q) (b : Z) :
  0 <= b -> (inject_Z (- b) <= q <= inject_Z b)%Q -> - b <= Js.Qtrunc q <= b.
Proof.
  intros Hb [Hlo Hhi]. unfold Js.Qtrunc.
  destruct (Qle_bool 0 q) eqn:Hs.
  - apply Qle_bool_iff in Hs.
    apply Qfloor_resp_le in Hs, Hhi. rewrite Qfloor_Z in Hhi.
    change (Qfloor 0) with 0 in Hs. lia.
  - assert (Hneg : (q <= 0)%Q).
    { apply Qnot_lt_le. intros Hc. apply Qlt_le_weak, Qle_bool_iff in Hc.
      congruence. }
    apply Qceiling_resp_le in Hneg, Hlo. rewrite Qceiling_Z in Hlo.
    change (Qceiling 0) with 0 in Hneg. lia.
Qed.

(** Only the full-scale value reaches 32768. *)
Lemma Qtrunc_full_scale (q : Q) :
  (q <= 1)%Q -> Js.Qtrunc (q * 32768) = 32768 -> (q == 1)%Q.
Proof.
  intros Hq Ht. apply Qle_antisym; [exact Hq|].
  assert (Hs : (32768 <= q * 32768)%Q).
  { unfold Js.Qtrunc in Ht. destruct (Qle_bool 0 (q * 32768)) eqn:Hs.
    - pose proof (Qfloor_le (q * 32768)) as Hf. rewrite Ht in Hf. exact Hf.
    - exfalso.
      assert (Hneg : (q * 32768 <= 0)%Q).
      { apply Qnot_lt_le. intros Hc. apply Qlt_le_weak, Qle_bool_iff in Hc.
        congruence. }
      apply Qceiling_resp_le in Hneg. change (Qceiling 0) with 0 in Hneg. lia. }
  apply (Qmult_le_r 1 q 32768); [reflexivity | exact Hs].
Qed.

(** C7. For every capture sample [x] in [[-1.0, 1.0]], the product by
    32768 is exact and the stored int16 is its truncation towards zero
    reduced to 16 bits, with no clamping: the truncated value lies in
    [[-32768, 32768]], it is 32768 (one step beyond the int16 range)
    exactly for [x = 1.0], where the stored sample wraps to -32768, and
    for every other sample the stored value is the truncation itself. *)
Theorem sample_to_int16 (x : Js.number) :
  Js.is_number x = true -> Js.finite x = true ->
  (-1 <= Js.value x <= 1)%Q ->
  let scaled := (Js.value x * 32768)%Q in
  (Js.value (Js.mul x Capture.scale) == scaled)%Q
  /\ Capture.int16_of_sample x = Js.signed16 (Js.Qtrunc scaled mod 65536)
  /\ -32768 <= Js.Qtrunc scaled <= 32768
  /\ (Js.Qtrunc scaled = 32768 <-> (Js.value x == 1)%Q)
  /\ ((Js.value x == 1)%Q -> Capture.int16_of_sample x = -32768)
  /\ (~ (Js.value x == 1)%Q -> Capture.int16_of_sample x = Js.Qtrunc scaled).
Proof.
  intros Hnum Hfin Hrange scaled.
  destruct (value_mul_scale x Hnum Hfin Hrange) as [Hf Hv].
  assert (Hstore : Capture.int16_of_sample x
                   = Js.signed16 (Js.Qtrunc scaled mod 65536)).
  { unfold Capture.int16_of_sample, scaled.
    rewrite <- (Qtrunc_comp _ _ Hv), <- truncate_value.
    destruct (Js.mul x Capture.scale); try discriminate Hf; reflexivity. }
  assert (Hb : -32768 <= Js.Qtrunc scaled <= 32768).
  { apply (Qtrunc_bounds scaled 32768); [lia|]. unfold scaled.
    destruct Hrange as [Hlo Hhi]. split.
    - apply Qle_trans with ((-1) * 32768)%Q;
        [apply Qle_bool_iff; reflexivity|].
      apply Qmult_le_compat_r; [exact Hlo | apply Qle_bool_iff; reflexivity].
    - apply Qle_trans with (1 * 32768)%Q;
        [|apply Qle_bool_iff; reflexivity].
      apply Qmult_le_compat_r; [exact Hhi | apply Qle_bool_iff; reflexivity]. }
  assert (Hfull : Js.Qtrunc scaled = 32768 <-> (Js.value x == 1)%Q).
  { split.
    - apply Qtrunc_full_scale, Hrange.
    - intros H1. unfold scaled. rewrite (Qtrunc_comp _ (1 * 32768)%Q).
      + reflexivity.
      + rewrite H1. reflexivity. }
  split; [exact Hv|]. split; [exact Hstore|]. split; [exact Hb|].
  split; [exact Hfull|]. split.
  - intros H1. apply Hfull in H1. rewrite Hstore, H1. reflexivity.
  - intros Hne. rewrite Hstore. apply mod_signed16.
    assert (Js.Qtrunc scaled <> 32768) by tauto. lia.
Qed.

Lemma sample_to_int16_witness :
  Capture.int16_of_sample (Js.dyadic 1 0) = -32768
  /\ Capture.int16_of_sample (Js.dyadic (-7) (-17))
     = Js.Qtrunc (Js.value (Js.dyadic (-7) (-17)) * 32768).
Proof.
  split.
  - apply (sample_to_int16 (Js.dyadic 1 0)); [reflexivity | reflexivity | | ].
    + split; apply Qle_bool_iff; reflexivity.
    + reflexivity.
  - apply (sample_to_int16 (Js.dyadic (-7) (-17))); [reflexivity | reflexivity | | ].
    + split; apply Qle_bool_iff; reflexivity.
    + intros H. apply Qeq_bool_iff in H. discriminate H.
Defined.

(** Truncation is towards zero, not to the nearest integer: 1.75 and
    -1.75 are stored as 1 and -1. *)
Example int16_of_sample_truncates :
  Capture.int16_of_block [Js.dyadic 7 (-17); Js.dyadic (-7) (-17)] = [1; -1].
Proof. reflexivity. Qed.

End NumberFacts.

(** ** The live session *)

Module LiveFacts.
Import Live.

#[local] Arguments JsSet.add : simpl never.
#[local] Arguments JsSet.delete : simpl never.
#[local] Arguments JsSet.size : simpl never.

(** Unfolds the handlers down to the state they compute. *)
Ltac unfold_handlers :=
  unfold handle, onToggleLive, startLiveSession, startLiveSession_try,
    onopen, onended, onmessage, onmessage_arrived, onmessage_settled,
    routeTranscripts, enqueue, onaudioprocess, try_catch,
    stateOf, callsOf, resultOf, mbind, M_bind, get, modify, call, skip,
    throw, mret, M_ret.

(** Splits on what a message carries: an accepted payload that decodes,
    one that does not, or none; and on its two transcript deltas. *)
Ltac message_cases msg s :=
  unfold withTranscripts;
  destruct (acceptedAudio msg s) as [?audio|];
    [match goal with |- context [decoded ?a] => destruct (decoded a) end|];
  destruct (inputTranscriptionOf msg), (outputTranscriptionOf msg).

Section Handlers.
Context {svc : GeminiService} {wa : WebAudio}.

Lemma bind_run {A B : Type} (m : M A) (k : A -> M B) (s : State) :
  (m ≫= k) s =
    match m s with
    | (Ok a, s1, c1) => let '(r, s2, c2) := k a s1 in (r, s2, c1 ++ c2)
    | (Err e, s1, c1) => (Err e, s1, c1)
    end.
Proof. reflexivity. Qed.

(** Stopping every node of the set: each [stop()] is called once, in
    insertion order, and what it throws is swallowed. *)
Lemma forEach_stop (l : list NodeId) (s : State) :
  forEach l (fun n => try_catch (nodeStop n) (fun _ => skip)) s
  = (Ok tt, s, map SourceStop l).
Proof.
  induction l as [|n l IH]; [reflexivity|].
  cbn [forEach]. rewrite bind_run.
  unfold try_catch at 1, nodeStop at 1. rewrite bind_run.
  destruct (stop_throws n); cbn; rewrite IH; reflexivity.
Qed.

Lemma stopLiveSession_run (s : State) :
  stopLiveSession s
  = (Ok tt, stopped s,
     match liveSessionRef s with Some c => [SessionClose c] | None => [] end
     ++ map SourceStop (audioSourcesRef s)).
Proof.
  destruct s as [la ms uv tr ac ls srcs nn].
  unfold stopLiveSession. rewrite bind_run.
  cbn [get liveSessionRef audioSourcesRef]. rewrite bind_run.
  destruct ls as [c|]; cbn [call skip mret M_ret];
    rewrite bind_run, forEach_stop; unfold mbind, M_bind, modify; cbn;
    rewrite ?app_nil_r; reflexivity.
Qed.

(** Every event that closes the session runs [stopLiveSession]. *)
Lemma handle_stops (e : Event) (s : State) :
  stops e s = true -> handle e s = stopLiveSession s.
Proof.
  destruct e; cbn [stops handle]; try discriminate; try reflexivity.
  intros Ha. unfold onToggleLive. rewrite bind_run. cbn [get].
  rewrite Ha. destruct (stopLiveSession s) as [[r s'] c]. reflexivity.
Qed.

(** *** The message handler, step by step *)

Lemma routeTranscripts_run (msg : LiveServerMessage) (s : State) :
  routeTranscripts msg s = (Ok tt, withTranscripts msg s, []).
Proof.
  unfold routeTranscripts, withTranscripts.
  destruct (inputTranscriptionOf msg), (outputTranscriptionOf msg);
    reflexivity.
Qed.

Lemma onmessage_arrived_run (msg : LiveServerMessage) (s : State) :
  onmessage_arrived msg s
  = (Ok tt,
     match acceptedAudio msg s with
     | Some _ => setIsModelSpeaking true s
     | None => withTranscripts msg s
     end, []).
Proof.
  unfold onmessage_arrived. rewrite bind_run. cbn [get].
  destruct (acceptedAudio msg s).
  - reflexivity.
  - rewrite routeTranscripts_run. reflexivity.
Qed.

Lemma enqueue_run (now : Z) (buffer : AudioBuffer) (s : State) :
  enqueue now buffer s = (Ok tt, started s, [startCall now buffer s]).
Proof. reflexivity. Qed.

Lemma onmessage_settled_run (now : Z) (msg : LiveServerMessage) (s : State) :
  onmessage_settled now msg s
  = match acceptedAudio msg s with
    | Some audio =>
        match decoded audio with
        | Ok buffer => (Ok tt, withTranscripts msg (started s),
                        [startCall now buffer s])
        | Err e => (Err e, s, [])
        end
    | None => (Ok tt, s, [])
    end.
Proof.
  unfold onmessage_settled. rewrite bind_run. cbn [get].
  destruct (acceptedAudio msg s) as [audio|]; [|reflexivity].
  destruct (decoded audio) as [buffer|e]; [|reflexivity].
  rewrite bind_run, enqueue_run, routeTranscripts_run. reflexivity.
Qed.

Lemma acceptedAudio_speaking (msg : LiveServerMessage) (b : bool) (s : State) :
  acceptedAudio msg (setIsModelSpeaking b s) = acceptedAudio msg s.
Proof. reflexivity. Qed.

(** A message handled in one go: the flag is raised, and then either a
    node is started and the transcripts are routed, or the decoding
    throws and nothing more happens. *)
Lemma onmessage_run (now : Z) (msg : LiveServerMessage) (s : State) :
  onmessage now msg s
  = match acceptedAudio msg s with
    | Some audio =>
        match decoded audio with
        | Ok buffer => (Ok tt, withTranscripts msg (enqueued s),
                        [startCall now buffer s])
        | Err e => (Err e, setIsModelSpeaking true s, [])
        end
    | None => (Ok tt, withTranscripts msg s, [])
    end.
Proof.
  unfold onmessage. rewrite bind_run, onmessage_arrived_run.
  rewrite onmessage_settled_run.
  destruct (acceptedAudio msg s) as [audio|] eqn:Hacc.
  - rewrite acceptedAudio_speaking, Hacc.
    destruct (decoded audio); reflexivity.
  - replace (acceptedAudio msg (withTranscripts msg s)) with (@None string);
      [reflexivity|].
    rewrite <- Hacc. unfold acceptedAudio, withTranscripts.
    destruct (inputTranscriptionOf msg), (outputTranscriptionOf msg);
      reflexivity.
Qed.

Lemma add_not_empty (n : NodeId) (l : list NodeId) : JsSet.add n l ≠ [].
Proof.
  unfold JsSet.add. destruct (decide (n ∈ l)) as [Hin|Hnot].
  - intros ->. inversion Hin.
  - destruct l; discriminate.
Qed.

Lemma delete_not_empty (n : NodeId) (l : list NodeId) :
  JsSet.delete n l ≠ [] -> l ≠ [].
Proof. intros H ->. apply H. reflexivity. Qed.

Lemma stopped_consistent (s : State) : consistent (stopped s).
Proof. unfold consistent. cbn. split; [discriminate | congruence]. Qed.

(** Each handler keeps the speaking flag and the set of active handles
    in agreement, as long as no message with an accepted payload is
    left waiting for its decoding and no decoding throws. *)
Lemma handle_consistent (e : Event) (s : State) :
  settlesAtOnce e s = true ->
  consistent s -> consistent (stateOf (handle e s)).
Proof.
  intros Hat Hs.
  destruct (stops e s) eqn:Hstop.
  { rewrite (handle_stops e s Hstop), stopLiveSession_run.
    apply stopped_consistent. }
  destruct e as [env| | |now msg| | |n|data|msg|now msg];
    try discriminate Hstop.
  - cbn [stops] in Hstop. destruct s as [la ms uv tr ac ls srcs nn].
    cbn in Hstop. subst la. unfold_handlers. cbn.
    destruct ac, (contextSuspended env), (microphone env); cbn; exact Hs.
  - destruct s as [la ms uv tr ac ls srcs nn]. exact Hs.
  - cbn [handle]. rewrite onmessage_run.
    cbn [settlesAtOnce] in Hat. unfold payloadDecodes in Hat.
    assert (He : consistent (enqueued s)).
    { split; [intros _; apply add_not_empty | reflexivity]. }
    revert Hat. destruct s as [la ms uv tr ac ls srcs nn].
    message_cases msg {| isLiveActive := la; isModelSpeaking := ms;
                         userVolume := uv; transcriptions := tr;
                         audioContextRef := ac; liveSessionRef := ls;
                         audioSourcesRef := srcs; nextNode := nn |};
      intros Hat; first [discriminate Hat | exact Hs | exact He].
  - destruct s as [la ms uv tr ac ls srcs nn]. unfold_handlers. cbn.
    unfold consistent in *. cbn in *.
    destruct (decide (JsSet.size (JsSet.delete n srcs) = 0%nat)) as [Hz|Hnz]; cbn.
    + apply length_zero_iff_nil in Hz. rewrite Hz.
      split; [discriminate | congruence].
    + split.
      * intros _ Hnil. apply Hnz. rewrite Hnil. reflexivity.
      * intros Hd. apply Hs, (delete_not_empty n), Hd.
  - destruct s as [la ms uv tr ac ls srcs nn]. exact Hs.
  - cbn [handle]. rewrite onmessage_arrived_run. cbn [settlesAtOnce] in Hat.
    revert Hat. unfold withTranscripts.
    destruct s as [la ms uv tr ac ls srcs nn].
    destruct (acceptedAudio msg _); [discriminate|]. intros _.
    destruct (inputTranscriptionOf msg), (outputTranscriptionOf msg);
      exact Hs.
  - cbn [handle]. rewrite onmessage_settled_run. cbn [settlesAtOnce] in Hat.
    destruct (acceptedAudio msg s); [discriminate Hat | exact Hs].
Qed.

Lemma init_consistent : consistent init.
Proof. split; [discriminate | intros H; contradiction H; reflexivity]. Qed.

(** So the flag and the set agree after every event of a run in which
    every accepted payload decodes, and does so before anything else
    happens. *)
Lemma statesAfter_consistent (evs : list Event) (s : State) :
  settledRun evs s -> consistent s -> Forall consistent (statesAfter evs s).
Proof.
  revert s. induction evs as [|e evs IH]; intros s Hrun Hs;
    cbn [statesAfter].
  - constructor.
  - destruct Hrun as [He Hrun].
    pose proof (handle_consistent e s He Hs) as Hs'.
    constructor; [exact Hs' | apply IH; assumption].
Qed.

(** *** Playback scheduling *)

Lemma audioPayload_audioMessage (a : string) :
  a ≠ ""%string -> audioPayload (audioMessage a) = Some a.
Proof. destruct a; [congruence | reflexivity]. Qed.

(** An audio message starts one source node, with no [when] argument,
    at the time it is handled. *)
Lemma acceptedAudio_audioMessage (a : string) (s : State) :
  audioContextRef s ≠ None -> a ≠ ""%string ->
  acceptedAudio (audioMessage a) s = Some a.
Proof.
  intros Hctx Ha. unfold acceptedAudio.
  rewrite (audioPayload_audioMessage a Ha).
  destruct (audioContextRef s); congruence.
Qed.

(** An audio message starts one source node, with no [when] argument,
    at the time it is handled; when its payload does not decode it
    starts none. *)
Lemma handle_audio (now : Z) (a : string) (s : State) :
  audioContextRef s ≠ None -> a ≠ ""%string ->
  handle (OnMessage now (audioMessage a)) s
  = match decoded a with
    | Ok buffer => (Ok tt, enqueued s, [startCall now buffer s])
    | Err e => (Err e, setIsModelSpeaking true s, [])
    end.
Proof.
  intros Hctx Ha. cbn [handle].
  rewrite onmessage_run, (acceptedAudio_audioMessage a s Hctx Ha).
  destruct (decoded a); reflexivity.
Qed.

Lemma run_cons (e : Event) (evs : list Event) (s : State) :
  run (e :: evs) s
  = (fst (run evs (stateOf (handle e s))),
     callsOf (handle e s) ++ snd (run evs (stateOf (handle e s)))).
Proof.
  cbn [run]. unfold stateOf, callsOf.
  destruct (handle e s) as [[r s1] c1]. cbn [fst snd].
  destruct (run evs s1) as [s2 c2]. reflexivity.
Qed.

Lemma enqueue_all (chunks : list (Z * string)) (s : State) :
  audioContextRef s ≠ None ->
  Forall (fun c => 0 <= fst c /\ snd c ≠ ""%string) chunks ->
  Forall2 startedAtArrival
    (playbacks (snd (run (enqueueEvents chunks) s)))
    (List.filter decodes chunks).
Proof.
  intros Hctx Hall. revert s Hctx.
  induction Hall as [|[now a] chunks [Hnow Ha] Hall IH]; intros s Hctx.
  - constructor.
  - cbn [enqueueEvents map fst snd] in *. rewrite run_cons.
    rewrite (handle_audio now a s Hctx Ha).
    cbn [List.filter]. unfold decodes at 1. cbn [snd].
    destruct (decoded a) as [buffer|e] eqn:Hdec;
      cbn [callsOf stateOf fst snd app].
    + cbn [playbacks omap startCall]. constructor.
      * unfold startedAtArrival, endTime, startTime. cbn [fst snd].
        split; [reflexivity|]. split; [cbn; lia|].
        exists buffer. split; [exact Hdec | cbn; lia].
      * apply IH. destruct s; exact Hctx.
    + apply IH. destruct s; exact Hctx.
Qed.

End Handlers.

(** C1 (as the code has it).  For every sequence of non-empty audio
    chunks handled in order, the chunks that are enqueued are those
    whose payload decodes, and each starts at the current time at which
    it is enqueued, whatever the end of the chunk before it.  So for
    consecutive chunks: when the later one arrives at or after the
    end of the earlier one its start is the later of now and that end,
    and the two do not overlap; when it arrives before the earlier one
    finishes it does not wait for that end, and (if it is not empty and
    does not precede the earlier one) the two play intervals overlap. *)
Theorem playback_starts_on_arrival {svc : GeminiService} {wa : WebAudio}
    (s : State) (chunks : list (Z * string)) :
  audioContextRef s ≠ None ->
  Forall (fun c => 0 <= fst c /\ snd c ≠ ""%string) chunks ->
  let hs := playbacks (snd (run (enqueueEvents chunks) s)) in
  Forall2 startedAtArrival hs (List.filter decodes chunks)
  /\ forall i h1 h2, hs !! i = Some h1 -> hs !! S i = Some h2 ->
       (endTime h1 <= calledAt h2 ->
          startTime h2 = specStart (calledAt h2) (endTime h1)
          /\ ~ overlap h1 h2)
       /\ (calledAt h2 < endTime h1 ->
             startTime h2 = calledAt h2
             /\ startTime h2 ≠ specStart (calledAt h2) (endTime h1)
             /\ (startTime h1 <= calledAt h2 -> 0 < bufferLength h2 ->
                 overlap h1 h2)).
Proof.
  intros Hctx Hall hs.
  pose proof (enqueue_all chunks s Hctx Hall) as Hhs. fold hs in Hhs.
  split; [exact Hhs|].
  intros i h1 h2 H1 H2.
  destruct (Forall2_lookup_l _ _ _ _ _ Hhs H2) as (c2 & _ & Hc & Hst & _).
  unfold specStart, overlap, endTime in *. split.
  - intros Hle. split; lia.
  - intros Hlt. split; [lia|]. split; lia.
Qed.

Lemma playback_starts_on_arrival_witness :
  let hs := playbacks (snd (@run plainService quietAudio
              (enqueueEvents [(0, "abcdefghijklmnopqrst"%string);
                              (3, "abcd"%string)])
              (setAudioContext (Some {| sampleRate := 24000 |}) init))) in
  map startTime hs = [0; 3] /\ map endTime hs = [10; 5].
Proof.
  pose proof (@playback_starts_on_arrival plainService quietAudio
    (setAudioContext (Some {| sampleRate := 24000 |}) init)
    [(0, "abcdefghijklmnopqrst"%string); (3, "abcd"%string)]) as H.
  cbv zeta in *.
  destruct H as [H _].
  - discriminate.
  - repeat constructor; cbn; try lia; discriminate.
  - split; reflexivity.
Defined.

(** The rule of the specification fails on the code: a session is opened,
    a chunk of 10 frames is enqueued at time 0 and one of 2 frames at
    time 3.  The second starts at 3, not at 10, and plays over the
    first. *)
Lemma gapless_counterexample :
  ~ gapless (playbacks (snd (@run plainService quietAudio
       ([ToggleLive micGranted; OnOpen]
        ++ enqueueEvents [(0, "abcdefghijklmnopqrst"%string);
                          (3, "abcd"%string)])
       init))).
Proof.
  intros [Hstart _].
  specialize (Hstart 0%nat
    {| node := 1%positive; calledAt := 0; when := 0; bufferLength := 10 |}
    {| node := 2%positive; calledAt := 3; when := 0; bufferLength := 2 |}
    eq_refl eq_refl).
  vm_compute in Hstart. discriminate Hstart.
Qed.

Section Lifecycle.
Context {svc : GeminiService} {wa : WebAudio}.

Lemma startLiveSession_granted (s : State) (env : StartEnv) :
  microphone env = Ok tt ->
  startLiveSession env s
  = (Ok tt, withOutputContext s,
     outputContextCalls s env ++ GetUserMedia :: connectCalls).
Proof.
  intros Hmic. destruct s as [la ms uv tr ac ls srcs nn].
  destruct env as [susp mic]. cbn in Hmic. subst mic.
  unfold_handlers. unfold withOutputContext, outputContextCalls.
  destruct ac, susp; reflexivity.
Qed.

Lemma startLiveSession_denied (s : State) (env : StartEnv) (e : Error) :
  microphone env = Err e ->
  startLiveSession env s
  = (Ok tt, setIsLiveActive false (withOutputContext s),
     outputContextCalls s env ++ [GetUserMedia; ConsoleError e]).
Proof.
  intros Hmic. destruct s as [la ms uv tr ac ls srcs nn].
  destruct env as [susp mic]. cbn in Hmic. subst mic.
  unfold_handlers. unfold withOutputContext, outputContextCalls.
  destruct ac, susp; reflexivity.
Qed.

Lemma toggle_run (env : StartEnv) (s : State) :
  handle (ToggleLive env) s
  = if isLiveActive s then stopLiveSession s else startLiveSession env s.
Proof.
  cbn [handle]. unfold onToggleLive. rewrite bind_run. cbn [get].
  destruct (isLiveActive s);
    [destruct (stopLiveSession s) as [[r s'] c]
    |destruct (startLiveSession env s) as [[r s'] c]];
    reflexivity.
Qed.

Lemma filter_stop_calls (l : list NodeId) :
  List.filter isSourceStop (map SourceStop l) = map SourceStop l
  /\ List.filter isSessionClose (map SourceStop l) = [].
Proof.
  induction l as [|n l [IH1 IH2]]; [split; reflexivity|].
  cbn. rewrite IH1, IH2. split; reflexivity.
Qed.

(** No handler assigns [liveSessionRef], and while it is empty no handler
    asks the transport to close. *)
Lemma handle_liveSessionRef (e : Event) (s : State) :
  liveSessionRef s = None ->
  liveSessionRef (stateOf (handle e s)) = None
  /\ List.filter isSessionClose (callsOf (handle e s)) = [].
Proof.
  intros Hls.
  destruct (stops e s) eqn:Hstop.
  { rewrite (handle_stops e s Hstop), stopLiveSession_run.
    cbn [stateOf callsOf fst snd stopped liveSessionRef]. rewrite Hls.
    split; [reflexivity | apply filter_stop_calls]. }
  destruct s as [la ms uv tr ac ls srcs nn]. cbn in Hls. subst ls.
  destruct e as [env| | |now msg| | |n|data|msg|now msg];
    try discriminate Hstop.
  - cbn in Hstop. subst la. destruct env as [susp mic]. unfold_handlers.
    destruct ac, susp, mic; split; reflexivity.
  - split; reflexivity.
  - cbn [handle]. rewrite onmessage_run.
    message_cases msg {| isLiveActive := la; isModelSpeaking := ms;
                         userVolume := uv; transcriptions := tr;
                         audioContextRef := ac; liveSessionRef := None;
                         audioSourcesRef := srcs; nextNode := nn |};
      split; reflexivity.
  - unfold_handlers. cbn.
    destruct (decide (JsSet.size (JsSet.delete n srcs) = 0%nat));
      split; reflexivity.
  - split; reflexivity.
  - cbn [handle]. rewrite onmessage_arrived_run. unfold withTranscripts.
    destruct (acceptedAudio msg _), (inputTranscriptionOf msg),
      (outputTranscriptionOf msg); split; reflexivity.
  - cbn [handle]. rewrite onmessage_settled_run.
    message_cases msg {| isLiveActive := la; isModelSpeaking := ms;
                         userVolume := uv; transcriptions := tr;
                         audioContextRef := ac; liveSessionRef := None;
                         audioSourcesRef := srcs; nextNode := nn |};
      split; reflexivity.
Qed.

Lemma transport_close_never_requested (evs : list Event) (s : State) :
  liveSessionRef s = None ->
  liveSessionRef (fst (run evs s)) = None
  /\ List.filter isSessionClose (snd (run evs s)) = [].
Proof.
  revert s. induction evs as [|e evs IH]; intros s Hls.
  - split; [exact Hls | reflexivity].
  - rewrite run_cons. cbn [fst snd].
    destruct (handle_liveSessionRef e s Hls) as [Hs Hc].
    destruct (IH _ Hs) as [Hs' Hc'].
    split; [exact Hs'|]. rewrite List.filter_app, Hc, Hc'. reflexivity.
Qed.

End Lifecycle.

(** What [stop()] throws is swallowed: the teardown completes and has
    called [stop()] on the node. *)
Example teardown_with_throwing_stop :
  let s := fst (@run plainService throwingAudio
                  [ToggleLive micGranted; OnOpen;
                   OnMessage 0 (audioMessage "abcd")] init) in
  @stopLiveSession throwingAudio s
  = (Ok tt, stopped s, [SourceStop 1%positive]).
Proof. reflexivity. Qed.

(** C3 (as the code has it).  From any state, the teardown on explicit
    close, remote close or transport error stops every active playback
    handle, in the order they were started, and empties the set; nothing
    precedes these stops but a close request to the transport, and
    nothing else is called: no capture resource is released.  It ends
    [Idle], not speaking, with both transcripts empty; the volume value
    is left as it was. *)
Theorem stopLiveSession_teardown {svc : GeminiService} {wa : WebAudio}
    (s : State) :
  let r := stopLiveSession s in
  resultOf r = Ok tt
  /\ callsOf r = List.filter isSessionClose (callsOf r)
                 ++ map SourceStop (audioSourcesRef s)
  /\ List.filter isSourceStop (callsOf r) = map SourceStop (audioSourcesRef s)
  /\ audioSourcesRef (stateOf r) = []
  /\ sessionState (stateOf r) = Idle
  /\ isModelSpeaking (stateOf r) = false
  /\ transcriptions (stateOf r) = emptyTranscriptions
  /\ userVolume (stateOf r) = userVolume s
  /\ handle OverlayClose s = r /\ handle OnClose s = r /\ handle OnError s = r.
Proof.
  cbv zeta. rewrite stopLiveSession_run.
  cbn [resultOf callsOf stateOf fst snd].
  destruct (filter_stop_calls (audioSourcesRef s)) as [Hf1 Hf2].
  repeat split.
  - destruct (liveSessionRef s); cbn [app List.filter isSessionClose];
      rewrite Hf2; reflexivity.
  - destruct (liveSessionRef s); cbn [app List.filter isSourceStop];
      rewrite Hf1; reflexivity.
  - cbn [handle]. apply stopLiveSession_run.
  - cbn [handle]. apply stopLiveSession_run.
  - cbn [handle]. apply stopLiveSession_run.
Qed.

(** The teardown of the specification fails on the code: a session is
    opened, one capture block at amplitude 0.5 sets the volume to 0.5,
    and the transport reports an error.  The session ends inactive with
    empty transcripts, but the volume is still 0.5, and the teardown
    called neither the transport nor the capture side. *)
Lemma teardown_counterexample :
  let r := @run plainService quietAudio
             [ToggleLive micGranted; OnOpen;
              OnAudioProcess [Js.dyadic 1 (-1); Js.dyadic 1 (-1)];
              OnMessage 0 (outputDelta "hi"); OnError] init in
  userVolume (fst r) = Js.dyadic 1 (-1)
  /\ callsOf (@handle plainService quietAudio OnError
                (fst (@run plainService quietAudio
                   [ToggleLive micGranted; OnOpen;
                    OnAudioProcess [Js.dyadic 1 (-1); Js.dyadic 1 (-1)];
                    OnMessage 0 (outputDelta "hi")] init))) = []
  /\ ~ closedAsSpecified (fst r).
Proof.
  cbv zeta. split; [reflexivity|]. split; [reflexivity|].
  intros (_ & Hv & _). vm_compute in Hv. discriminate Hv.
Qed.

(** C4. Closing twice gives the state closing once gives, and neither
    call raises an error, even when [stop()] throws on every node; the
    second call finds the session [Idle].  On the initial, idle state
    closing changes nothing and calls nothing. *)
Theorem stopLiveSession_idempotent {svc : GeminiService} {wa : WebAudio}
    (s : State) :
  let r1 := stopLiveSession s in
  let r2 := stopLiveSession (stateOf r1) in
  resultOf r1 = Ok tt
  /\ sessionState (stateOf r1) = Idle
  /\ resultOf r2 = Ok tt
  /\ stateOf r2 = stateOf r1
  /\ stopLiveSession init = (Ok tt, init, []).
Proof.
  cbv zeta. rewrite !stopLiveSession_run.
  cbn [resultOf stateOf fst snd]. repeat split.
Qed.

(** C5 (as the code has it).  [startLiveSession] has no guard: whatever
    the session state, with the microphone granted it returns normally
    after acquiring the microphone and opening a transport connection,
    and leaves the flags, transcripts, volume and active handles as they
    were.  The live toggle is the only gate: it calls the teardown when
    the session is active and [startLiveSession] otherwise, also while a
    connection is still being opened. *)
Theorem start_is_not_guarded {svc : GeminiService} {wa : WebAudio}
    (s : State) (env : StartEnv) :
  microphone env = Ok tt ->
  let r := startLiveSession env s in
  resultOf r = Ok tt
  /\ callsOf r = outputContextCalls s env ++ GetUserMedia :: connectCalls
  /\ stateOf r = withOutputContext s
  /\ isLiveActive (stateOf r) = isLiveActive s
  /\ isModelSpeaking (stateOf r) = isModelSpeaking s
  /\ transcriptions (stateOf r) = transcriptions s
  /\ userVolume (stateOf r) = userVolume s
  /\ audioSourcesRef (stateOf r) = audioSourcesRef s
  /\ (isLiveActive s = true -> handle (ToggleLive env) s = stopLiveSession s)
  /\ (isLiveActive s = false -> handle (ToggleLive env) s = r).
Proof.
  intros Hmic. cbv zeta. rewrite (startLiveSession_granted s env Hmic).
  cbn [resultOf callsOf stateOf fst snd].
  repeat split; try (unfold withOutputContext; destruct s as [? ? ? ? [?|] ? ? ?];
                     reflexivity).
  - intros Ha. rewrite toggle_run, Ha. reflexivity.
  - intros Ha. rewrite toggle_run, Ha. apply startLiveSession_granted, Hmic.
Qed.

Lemma start_is_not_guarded_witness :
  let active := fst (@run plainService quietAudio
                       [ToggleLive micGranted; OnOpen] init) in
  isLiveActive active = true
  /\ resultOf (startLiveSession micGranted active)
     = Ok tt
  /\ callsOf (startLiveSession micGranted active)
     = GetUserMedia :: connectCalls.
Proof.
  cbv zeta. split; [reflexivity|].
  pose proof (@start_is_not_guarded plainService quietAudio
    (fst (@run plainService quietAudio [ToggleLive micGranted; OnOpen] init))
    micGranted eq_refl) as H.
  cbv zeta in H. destruct H as (Hr & Hc & _). split; [exact Hr | exact Hc].
Defined.

(** The rejection of the specification fails on the code: with a session
    being connected, and with a session active, a further start is not
    rejected; it opens one more transport connection. *)
Lemma start_rejection_counterexample :
  let connecting := fst (@run plainService quietAudio
                           [ToggleLive micGranted] init) in
  let active := fst (@run plainService quietAudio
                       [ToggleLive micGranted; OnOpen] init) in
  ~ rejected (@handle plainService quietAudio (ToggleLive micGranted) connecting)
  /\ ~ rejected (startLiveSession micGranted active)
  /\ snd (@run plainService quietAudio
            [ToggleLive micGranted; ToggleLive micGranted] init)
     = [NewAudioContext 24000; GetUserMedia; NewAudioContext 16000;
        CreateMediaStreamSource; CreateScriptProcessor 4096 1 1; ConnectLive;
        GetUserMedia; NewAudioContext 16000;
        CreateMediaStreamSource; CreateScriptProcessor 4096 1 1; ConnectLive].
Proof.
  cbv zeta. split; [|split].
  - intros [e He]. vm_compute in He. discriminate He.
  - intros [e He]. vm_compute in He. discriminate He.
  - reflexivity.
Qed.

(** C6 (as the code has it).  When the microphone cannot be acquired,
    [startLiveSession] catches the failure: it logs the error and
    returns normally, so no error reaches the caller.  No transport
    connection is opened, the session is left [Idle], and nothing else
    of the state changes but the output context, created if it did not
    exist yet. *)
Theorem start_without_microphone (s : State) (env : StartEnv) (e : Error) :
  microphone env = Err e ->
  let r := startLiveSession env s in
  resultOf r = Ok tt
  /\ callsOf r = outputContextCalls s env ++ [GetUserMedia; ConsoleError e]
  /\ (ConnectLive ∉ callsOf r)
  /\ sessionState (stateOf r) = Idle
  /\ stateOf r = setIsLiveActive false (withOutputContext s).
Proof.
  intros Hmic. cbv zeta. rewrite (startLiveSession_denied s env e Hmic).
  cbn [resultOf callsOf stateOf fst snd]. repeat split.
  intros Hin. unfold outputContextCalls in Hin.
  destruct (audioContextRef s), (contextSuspended env); cbn in Hin;
    repeat (apply elem_of_cons in Hin as [Hin|Hin]; [discriminate Hin|]);
    inversion Hin.
Qed.

Lemma start_without_microphone_witness :
  resultOf (startLiveSession micDenied init) = Ok tt
  /\ callsOf (startLiveSession micDenied init)
     = [NewAudioContext 24000; GetUserMedia; ConsoleError NotAllowedError]
  /\ sessionState
       (stateOf (startLiveSession micDenied init))
     = Idle.
Proof.
  pose proof (start_without_microphone init micDenied NotAllowedError
                eq_refl) as H.
  cbv zeta in H. destruct H as (Hr & Hc & _ & Hi & _).
  split; [exact Hr|]. split; [exact Hc | exact Hi].
Defined.

(** The failure of the specification does not happen on the code: with
    the microphone denied, the start from the initial state is not
    rejected. *)
Lemma capture_failure_counterexample :
  ~ rejected (startLiveSession micDenied init)
  /\ ~ rejected (@handle plainService quietAudio (ToggleLive micDenied) init).
Proof.
  split; intros [e He]; vm_compute in He; discriminate He.
Qed.

Lemma append_empty_r (s : string) : (s ++ "")%string = s.
Proof. induction s as [|a s IH]; [reflexivity|]. cbn. rewrite IH. reflexivity. Qed.

Section Transcripts.
Context {svc : GeminiService} {wa : WebAudio}.

(** What App.tsx:188-189 do to the two transcript buffers. *)
Lemma withTranscripts_transcripts (msg : LiveServerMessage) (s : State) :
  input (transcriptions (withTranscripts msg s))
    = match inputTranscriptionOf msg with
      | Some t => text t
      | None => input (transcriptions s)
      end
  /\ output (transcriptions (withTranscripts msg s))
     = (output (transcriptions s)
        ++ match outputTranscriptionOf msg with
           | Some t => text t
           | None => ""
           end)%string.
Proof.
  destruct s as [la ms uv [tin tout] ac ls srcs nn]. unfold withTranscripts.
  destruct (inputTranscriptionOf msg), (outputTranscriptionOf msg); cbn;
    rewrite ?append_empty_r; split; reflexivity.
Qed.

(** What a message does to the two transcript buffers when its handler
    gets past the decoding. *)
Lemma onmessage_transcripts (now : Z) (msg : LiveServerMessage) (s : State) :
  payloadDecodes msg s = true ->
  let s' := stateOf (handle (OnMessage now msg) s) in
  input (transcriptions s')
    = match inputTranscriptionOf msg with
      | Some t => text t
      | None => input (transcriptions s)
      end
  /\ output (transcriptions s')
     = (output (transcriptions s)
        ++ match outputTranscriptionOf msg with
           | Some t => text t
           | None => ""
           end)%string.
Proof.
  intros Hdec. cbv zeta. cbn [handle]. rewrite onmessage_run.
  unfold payloadDecodes in Hdec.
  destruct (acceptedAudio msg s) as [audio|].
  - destruct (decoded audio); [|discriminate Hdec]. cbn [stateOf fst snd].
    apply (withTranscripts_transcripts msg (enqueued s)).
  - apply withTranscripts_transcripts.
Qed.

(** A message whose payload does not decode leaves both buffers as they
    were, whatever deltas it carries. *)
Lemma onmessage_dropped (now : Z) (msg : LiveServerMessage) (s : State) :
  payloadDecodes msg s = false ->
  transcriptions (stateOf (handle (OnMessage now msg) s)) = transcriptions s.
Proof.
  intros Hdec. cbn [handle]. rewrite onmessage_run.
  unfold payloadDecodes in Hdec.
  destruct (acceptedAudio msg s) as [audio|]; [|discriminate Hdec].
  destruct (decoded audio); [discriminate Hdec | reflexivity].
Qed.

(** With an accepted payload the deltas wait for the decoding. *)
Lemma onmessage_arrived_transcripts (msg : LiveServerMessage) (s : State)
    (audio : string) :
  acceptedAudio msg s = Some audio ->
  transcriptions (stateOf (handle (OnMessageArrived msg) s))
  = transcriptions s.
Proof.
  intros Hacc. cbn [handle]. rewrite onmessage_arrived_run, Hacc.
  reflexivity.
Qed.

(** Outside the teardown no handler shortens the output transcript. *)
Lemma output_grows (e : Event) (s : State) :
  stops e s = false ->
  exists t, output (transcriptions (stateOf (handle e s)))
            = (output (transcriptions s) ++ t)%string.
Proof.
  intros Hstop.
  destruct e as [env| | |now msg| | |n|data|msg|now msg];
    try discriminate Hstop.
  - exists ""%string. rewrite append_empty_r. cbn [stops] in Hstop.
    rewrite toggle_run, Hstop.
    destruct s as [la ms uv tr ac ls srcs nn], env as [susp mic].
    unfold_handlers. destruct ac, susp, mic; reflexivity.
  - exists ""%string. rewrite append_empty_r. reflexivity.
  - destruct (payloadDecodes msg s) eqn:Hdec.
    + eexists. apply (onmessage_transcripts now msg s Hdec).
    + exists ""%string.
      rewrite append_empty_r, (onmessage_dropped now msg s Hdec).
      reflexivity.
  - exists ""%string. rewrite append_empty_r.
    destruct s as [la ms uv tr ac ls srcs nn]. unfold_handlers. cbn.
    destruct (decide (JsSet.size (JsSet.delete n srcs) = 0%nat)); reflexivity.
  - exists ""%string. rewrite append_empty_r. reflexivity.
  - cbn [handle]. rewrite onmessage_arrived_run. cbn [stateOf fst snd].
    destruct (acceptedAudio msg s).
    + exists ""%string. rewrite append_empty_r. reflexivity.
    + eexists. apply withTranscripts_transcripts.
  - cbn [handle]. rewrite onmessage_settled_run.
    destruct (acceptedAudio msg s) as [audio|];
      [destruct (decoded audio)|]; cbn [stateOf fst snd].
    + eexists. apply (withTranscripts_transcripts msg (started s)).
    + exists ""%string. rewrite append_empty_r. reflexivity.
    + exists ""%string. rewrite append_empty_r. reflexivity.
Qed.

Lemma start_keeps_transcripts (env : StartEnv) (s : State) :
  transcriptions (stateOf (startLiveSession env s)) = transcriptions s.
Proof.
  destruct s as [la ms uv tr ac ls srcs nn], env as [susp mic].
  unfold_handlers. destruct ac, susp, mic; reflexivity.
Qed.

End Transcripts.

(** C8 (as the code has it).  Every inbound input-transcript delta
    replaces the input buffer with its text and every inbound
    output-transcript delta appends its text to the output buffer,
    provided the handler gets that far: the deltas of a message with an
    accepted audio payload are applied only once that payload has been
    decoded, and are dropped when the decoding throws.  The output
    buffer only grows until the session is torn down: the teardown
    (explicit close, remote close, transport error) is what empties both
    buffers, and a session start leaves them as they are. *)
Theorem transcript_routing {svc : GeminiService} {wa : WebAudio}
    (s : State) (now : Z) (msg : LiveServerMessage) (e : Event) :
  let s' := stateOf (handle (OnMessage now msg) s) in
  (payloadDecodes msg s = true ->
   input (transcriptions s')
     = match inputTranscriptionOf msg with
       | Some t => text t
       | None => input (transcriptions s)
       end
   /\ output (transcriptions s')
      = (output (transcriptions s)
         ++ match outputTranscriptionOf msg with
            | Some t => text t
            | None => ""
            end)%string)
  /\ (payloadDecodes msg s = false -> transcriptions s' = transcriptions s)
  /\ (acceptedAudio msg s ≠ None ->
      transcriptions (stateOf (handle (OnMessageArrived msg) s))
      = transcriptions s)
  /\ (stops e s = false ->
      exists t, output (transcriptions (stateOf (handle e s)))
                = (output (transcriptions s) ++ t)%string)
  /\ (stops e s = true ->
      transcriptions (stateOf (handle e s)) = emptyTranscriptions)
  /\ (starts e s = true ->
      transcriptions (stateOf (handle e s)) = transcriptions s).
Proof.
  cbv zeta.
  split; [apply (onmessage_transcripts now msg s)|].
  split; [apply onmessage_dropped|].
  split.
  { destruct (acceptedAudio msg s) as [audio|] eqn:Hacc; [|congruence].
    intros _. apply (onmessage_arrived_transcripts msg s audio Hacc). }
  split; [apply output_grows|].
  split.
  - intros Hstop. rewrite (handle_stops e s Hstop), stopLiveSession_run.
    reflexivity.
  - intros Hstart. destruct e; try discriminate Hstart.
    cbn [starts] in Hstart. apply negb_true_iff in Hstart.
    rewrite toggle_run, Hstart. apply start_keeps_transcripts.
Qed.

Lemma transcript_routing_witness :
  let s := fst (@run plainService quietAudio
                  [ToggleLive micGranted; OnOpen;
                   OnMessage 0 (outputDelta "hel")] init) in
  output (transcriptions
    (stateOf (@handle plainService quietAudio (OnMessage 0 (outputDelta "lo")) s)))
  = "hello"%string
  /\ transcriptions
       (stateOf (@handle plainService quietAudio (OnMessage 0 (inputDelta "hey")) s))
     = {| input := "hey"; output := "hel" |}
  /\ transcriptions (stateOf (@handle plainService quietAudio OnError s))
     = emptyTranscriptions.
Proof.
  cbv zeta.
  pose proof (@transcript_routing plainService quietAudio
    (fst (@run plainService quietAudio
            [ToggleLive micGranted; OnOpen; OnMessage 0 (outputDelta "hel")]
            init))
    0 (outputDelta "lo") OnError) as H.
  cbv zeta in H. destruct H as (Hok & _ & _ & _ & Hstop & _).
  destruct (Hok eq_refl) as [_ Hout].
  split; [exact Hout|]. split; [reflexivity | apply Hstop; reflexivity].
Defined.

(** "Reset only on session start" fails on the code.  With "hi" in the
    output buffer, a transport error empties it although no session
    starts; and after the overlay is closed, a late delta and a new
    start, the new session begins with the late text still there.  Nor
    is every delta applied: one that comes with an audio payload of odd
    length, which does not decode, is dropped. *)
Lemma output_reset_counterexample :
  let s := fst (@run plainService quietAudio
                  [ToggleLive micGranted; OnOpen;
                   OnMessage 0 (outputDelta "hi")] init) in
  output (transcriptions s) = "hi"%string
  /\ output (transcriptions (stateOf
       (@handle plainService quietAudio
          (OnMessage 1 (audioWithOutput "abc" "there")) s))) = "hi"%string
  /\ starts OnError s = false
  /\ output (transcriptions (stateOf (@handle plainService quietAudio OnError s)))
     = ""%string
  /\ output (transcriptions (fst (@run plainService quietAudio
       [ToggleLive micGranted; OnOpen; OverlayClose;
        OnMessage 0 (outputDelta "late"); ToggleLive micGranted; OnOpen]
       init))) = "late"%string
  /\ ~ @outputResetOnlyOnStart plainService quietAudio.
Proof.
  cbv zeta. repeat (split; [reflexivity|]).
  intros H.
  destruct (H OnError
              (fst (@run plainService quietAudio
                      [ToggleLive micGranted; OnOpen;
                       OnMessage 0 (outputDelta "hi")] init))
              eq_refl) as [t Ht].
  vm_compute in Ht. discriminate Ht.
Qed.

(** C10. An inbound message with no model-turn audio data, no input
    transcription and no output transcription changes nothing: the whole
    state, and so the speaking flag, the set of active handles and both
    transcript buffers, is as before, and no call is made. *)
Theorem message_without_content_ignored
    {svc : GeminiService} {wa : WebAudio}
    (s : State) (now : Z) (msg : LiveServerMessage) :
  audioOf msg = None ->
  inputTranscriptionOf msg = None ->
  outputTranscriptionOf msg = None ->
  handle (OnMessage now msg) s = (Ok tt, s, []).
Proof.
  intros Ha Hi Ho. cbn [handle]. rewrite onmessage_run.
  unfold acceptedAudio, audioPayload, withTranscripts.
  rewrite Ha, Hi, Ho. reflexivity.
Qed.

Lemma message_without_content_ignored_witness :
  let s := fst (@run plainService quietAudio
                  [ToggleLive micGranted; OnOpen;
                   OnMessage 0 (audioMessage "abcd");
                   OnMessage 1 (outputDelta "hi")] init) in
  let msg := {| serverContent := Some {| modelTurn := Some {| parts := [] |};
                                         inputTranscription := None;
                                         outputTranscription := None |} |} in
  @handle plainService quietAudio (OnMessage 2 msg) s = (Ok tt, s, [])
  /\ @handle plainService quietAudio (OnMessage 2 {| serverContent := None |}) s
     = (Ok tt, s, []).
Proof.
  cbv zeta. split;
    apply (@message_without_content_ignored plainService quietAudio);
    reflexivity.
Defined.

(** C2 fails on the code.  The handler raises the speaking flag before
    it awaits the decoding and adds the node after it, and nothing
    lowers the flag when the decoding throws.  So: (1) with one node
    playing, a second audio message arrives, the first node ends while
    the second payload is being decoded, and the decoding settles: the
    second node is playing and the flag says nobody speaks; (2) an audio
    message whose payload does not decode leaves the flag raised with
    nothing playing.  Both runs end in a state where the flag and the
    set of active playback handles disagree. *)
Theorem speaking_flag_out_of_step :
  let overtaken :=
    [ToggleLive micGranted; OnOpen;
     OnMessage 0 (audioMessage "abcd");
     OnMessageArrived (audioMessage "efgh");
     OnEnded 1%positive;
     OnDecodeSettled 2 (audioMessage "efgh")] in
  let undecodable :=
    [ToggleLive micGranted; OnOpen; OnMessage 0 (audioMessage "abc")] in
  (isModelSpeaking (fst (@run plainService quietAudio overtaken init)) = false
   /\ audioSourcesRef (fst (@run plainService quietAudio overtaken init))
      = [2%positive]
   /\ playbacks (snd (@run plainService quietAudio overtaken init))
      = [ {| node := 1%positive; calledAt := 0; when := 0;
             bufferLength := 2 |};
          {| node := 2%positive; calledAt := 2; when := 0;
             bufferLength := 2 |} ]
   /\ ~ Forall consistent
          (@statesAfter plainService quietAudio overtaken init))
  /\ (isModelSpeaking (fst (@run plainService quietAudio undecodable init))
      = true
     /\ audioSourcesRef (fst (@run plainService quietAudio undecodable init))
        = []
     /\ ~ Forall consistent
            (@statesAfter plainService quietAudio undecodable init)).
Proof.
  cbv zeta. split.
  - split; [reflexivity|]. split; [reflexivity|]. split; [reflexivity|].
    intros H. rewrite Forall_forall in H.
    assert (Hin : fst (@run plainService quietAudio
                     [ToggleLive micGranted; OnOpen;
                      OnMessage 0 (audioMessage "abcd");
                      OnMessageArrived (audioMessage "efgh");
                      OnEnded 1%positive;
                      OnDecodeSettled 2 (audioMessage "efgh")] init)
                  ∈ @statesAfter plainService quietAudio
                      [ToggleLive micGranted; OnOpen;
                       OnMessage 0 (audioMessage "abcd");
                       OnMessageArrived (audioMessage "efgh");
                       OnEnded 1%positive;
                       OnDecodeSettled 2 (audioMessage "efgh")] init).
    { vm_compute. do 5 apply list_elem_of_further. apply list_elem_of_here. }
    destruct (H _ Hin) as [_ Hback].
    vm_compute in Hback. discriminate Hback. discriminate.
  - split; [reflexivity|]. split; [reflexivity|].
    intros H. rewrite Forall_forall in H.
    assert (Hin : fst (@run plainService quietAudio
                     [ToggleLive micGranted; OnOpen;
                      OnMessage 0 (audioMessage "abc")] init)
                  ∈ @statesAfter plainService quietAudio
                      [ToggleLive micGranted; OnOpen;
                       OnMessage 0 (audioMessage "abc")] init).
    { vm_compute. do 2 apply list_elem_of_further. apply list_elem_of_here. }
    destruct (H _ Hin) as [Hforth _].
    vm_compute in Hforth. apply Hforth; reflexivity.
Qed.

End LiveFacts.


(** ** The live session: what a run keeps and what it never does *)

Module LiveMore.
Import Live LiveAux LiveFacts.

#[local] Arguments JsSet.add : simpl never.
#[local] Arguments JsSet.delete : simpl never.
#[local] Arguments JsSet.size : simpl never.

Section Runs.
Context {svc : GeminiService} {wa : WebAudio}.

Lemma filter_not_stop (p : Call -> bool) (l : list NodeId) :
  (forall n, p (SourceStop n) = false) ->
  List.filter p (map SourceStop l) = [].
Proof.
  intros Hp. induction l as [|n l IH]; [reflexivity|].
  cbn. rewrite Hp. exact IH.
Qed.

(** One event and the output context: it is created when a start finds
    none, and no event discards or replaces it. *)
Lemma handle_output_context (e : Event) (s : State) :
  match audioContextRef s with
  | Some c =>
      audioContextRef (stateOf (handle e s)) = Some c
      /\ List.filter isNewOutputContext (callsOf (handle e s)) = []
  | None =>
      (audioContextRef (stateOf (handle e s)) = None
       /\ List.filter isNewOutputContext (callsOf (handle e s)) = [])
      \/ (audioContextRef (stateOf (handle e s))
            = Some {| sampleRate := 24000 |}
          /\ List.filter isNewOutputContext (callsOf (handle e s))
             = [NewAudioContext 24000])
  end.
Proof.
  destruct (stops e s) eqn:Hstop.
  { rewrite (handle_stops e s Hstop), stopLiveSession_run.
    cbn [stateOf callsOf fst snd stopped audioContextRef].
    assert (Hf : List.filter isNewOutputContext
                   (match liveSessionRef s with
                    | Some c => [SessionClose c]
                    | None => []
                    end ++ map SourceStop (audioSourcesRef s)) = []).
    { rewrite List.filter_app, filter_not_stop by reflexivity.
      destruct (liveSessionRef s); reflexivity. }
    destruct (audioContextRef s); [split|left; split]; auto. }
  destruct s as [la ms uv tr ac ls srcs nn].
  destruct e as [env| | |now msg| | |n|data|msg|now msg];
    try discriminate Hstop.
  - cbn in Hstop. subst la. destruct env as [susp mic]. unfold_handlers.
    destruct ac, susp, mic; cbn; auto.
  - destruct ac; cbn; auto.
  - cbn [handle]. rewrite onmessage_run.
    message_cases msg {| isLiveActive := la; isModelSpeaking := ms;
                         userVolume := uv; transcriptions := tr;
                         audioContextRef := ac; liveSessionRef := ls;
                         audioSourcesRef := srcs; nextNode := nn |};
      destruct ac; cbn; auto.
  - unfold_handlers. cbn.
    destruct (decide (JsSet.size (JsSet.delete n srcs) = 0%nat)), ac;
      cbn; auto.
  - destruct ac; cbn; auto.
  - cbn [handle]. rewrite onmessage_arrived_run. unfold withTranscripts.
    destruct (acceptedAudio msg _), (inputTranscriptionOf msg),
      (outputTranscriptionOf msg), ac; cbn; auto.
  - cbn [handle]. rewrite onmessage_settled_run.
    message_cases msg {| isLiveActive := la; isModelSpeaking := ms;
                         userVolume := uv; transcriptions := tr;
                         audioContextRef := ac; liveSessionRef := ls;
                         audioSourcesRef := srcs; nextNode := nn |};
      destruct ac; cbn; auto.
Qed.

Lemma run_output_context (evs : list Event) (s : State) :
  match audioContextRef s with
  | Some c =>
      audioContextRef (fst (run evs s)) = Some c
      /\ List.filter isNewOutputContext (snd (run evs s)) = []
  | None =>
      (audioContextRef (fst (run evs s)) = None
       /\ List.filter isNewOutputContext (snd (run evs s)) = [])
      \/ (audioContextRef (fst (run evs s)) = Some {| sampleRate := 24000 |}
          /\ List.filter isNewOutputContext (snd (run evs s))
             = [NewAudioContext 24000])
  end.
Proof.
  revert s. induction evs as [|e evs IH]; intros s.
  - cbn [run fst snd]. destruct (audioContextRef s); cbn; auto.
  - rewrite run_cons. cbn [fst snd]. rewrite List.filter_app.
    pose proof (handle_output_context e s) as He.
    pose proof (IH (stateOf (handle e s))) as Hr.
    destruct (audioContextRef s) as [c|].
    + destruct He as [He1 He2]. rewrite He1 in Hr. destruct Hr as [Hr1 Hr2].
      rewrite He2, Hr2. auto.
    + destruct He as [[He1 He2]|[He1 He2]]; rewrite He1 in Hr; rewrite He2.
      * exact Hr.
      * destruct Hr as [Hr1 Hr2]. rewrite Hr2. right. auto.
Qed.

End Runs.

(** X1. The 24 kHz output context is process-wide: along any sequence of
    events from the initial state it is created at most once, exactly
    when the run ends with a context in place, and that context is the
    24 kHz one; from a state that already has a context no event creates
    another or discards it, the teardown included. *)
Theorem output_context_created_once {svc : GeminiService} {wa : WebAudio}
    (evs : list Event) (s : State) (c : AudioContext) :
  (List.filter isNewOutputContext (snd (run evs init))
   = match audioContextRef (fst (run evs init)) with
     | Some _ => [NewAudioContext 24000]
     | None => []
     end)
  /\ (audioContextRef (fst (run evs init)) = None
      \/ audioContextRef (fst (run evs init)) = Some {| sampleRate := 24000 |})
  /\ (audioContextRef s = Some c ->
      audioContextRef (fst (run evs s)) = Some c
      /\ List.filter isNewOutputContext (snd (run evs s)) = []).
Proof.
  split; [|split].
  - pose proof (run_output_context evs init) as H. cbn [init audioContextRef] in H.
    destruct H as [[H1 H2]|[H1 H2]]; rewrite H1, H2; reflexivity.
  - pose proof (run_output_context evs init) as H. cbn [init audioContextRef] in H.
    destruct H as [[H1 _]|[H1 _]]; auto.
  - intros Hc. pose proof (run_output_context evs s) as H. rewrite Hc in H.
    exact H.
Qed.

Lemma output_context_created_once_witness :
  let evs := [ToggleLive micGranted; OnOpen; OverlayClose;
              ToggleLive micGranted; OnOpen; OnError; ToggleLive micDenied] in
  List.filter isNewOutputContext (snd (@run plainService quietAudio evs init))
  = [NewAudioContext 24000]
  /\ audioContextRef
       (fst (@run plainService quietAudio [OverlayClose; OnError]
               (fst (@run plainService quietAudio evs init))))
     = Some {| sampleRate := 24000 |}.
Proof.
  cbv zeta. split.
  - apply (@output_context_created_once plainService quietAudio
             [ToggleLive micGranted; OnOpen; OverlayClose;
              ToggleLive micGranted; OnOpen; OnError; ToggleLive micDenied]
             init {| sampleRate := 24000 |}).
  - apply (@output_context_created_once plainService quietAudio
             [OverlayClose; OnError] _ {| sampleRate := 24000 |}).
    reflexivity.
Defined.

(** X2. No handler ever assigns the session reference, so along any
    sequence of events from the initial state it stays empty and the
    transport is never asked to close, whatever teardowns happen. *)
Theorem transport_never_closed {svc : GeminiService} {wa : WebAudio}
    (evs : list Event) :
  liveSessionRef (fst (run evs init)) = None
  /\ List.filter isSessionClose (snd (run evs init)) = [].
Proof. apply transport_close_never_requested. reflexivity. Qed.

Section ActiveSet.
Context {svc : GeminiService} {wa : WebAudio}.

Lemma add_fresh (n : NodeId) (l : list NodeId) :
  Forall (fun m => (m < n)%positive) l ->
  (n ∉ l) /\ JsSet.add n l = l ++ [n].
Proof.
  intros Hl.
  assert (Hn : n ∉ l).
  { intros Hin. rewrite Forall_forall in Hl. specialize (Hl n Hin). lia. }
  split; [exact Hn|]. unfold JsSet.add. destruct (decide (n ∈ l)); [contradiction|].
  reflexivity.
Qed.

(** Routing the transcripts leaves the set of nodes alone. *)
Lemma withTranscripts_sources (msg : LiveServerMessage) (s : State) :
  audioSourcesRef (withTranscripts msg s) = audioSourcesRef s
  /\ nextNode (withTranscripts msg s) = nextNode s.
Proof.
  unfold withTranscripts.
  destruct (inputTranscriptionOf msg), (outputTranscriptionOf msg);
    split; reflexivity.
Qed.

(** What the settled decoding of an accepted payload does: a node is
    started and added when it succeeded, nothing happens when it
    threw. *)
Lemma settled_accepted (now : Z) (msg : LiveServerMessage) (s : State)
    (audio : string) :
  acceptedAudio msg s = Some audio ->
  match decoded audio with
  | Ok buffer =>
      audioSourcesRef (stateOf (handle (OnDecodeSettled now msg) s))
        = JsSet.add (nextNode s) (audioSourcesRef s)
      /\ nextNode (stateOf (handle (OnDecodeSettled now msg) s))
         = Pos.succ (nextNode s)
      /\ callsOf (handle (OnDecodeSettled now msg) s)
         = [startCall now buffer s]
  | Err e => handle (OnDecodeSettled now msg) s = (Err e, s, [])
  end.
Proof.
  intros Hacc. cbn [handle]. rewrite onmessage_settled_run, Hacc.
  destruct (decoded audio) as [buffer|e]; [|reflexivity].
  cbn [stateOf callsOf fst snd].
  destruct (withTranscripts_sources msg (started s)) as [Hs Hn].
  rewrite Hs, Hn. repeat split.
Qed.

(** A message event either leaves the set of nodes as it was or adds
    the next fresh node to it. *)
Lemma message_sources (e : Event) (s : State) :
  match e with
  | OnMessage _ _ | OnMessageArrived _ | OnDecodeSettled _ _ =>
      (audioSourcesRef (stateOf (handle e s)) = audioSourcesRef s
       /\ nextNode (stateOf (handle e s)) = nextNode s)
      \/ (audioSourcesRef (stateOf (handle e s))
            = JsSet.add (nextNode s) (audioSourcesRef s)
          /\ nextNode (stateOf (handle e s)) = Pos.succ (nextNode s))
  | _ => True
  end.
Proof.
  destruct e as [env| | |now msg| | |n|data|msg|now msg]; try exact I;
    cbn [handle].
  - rewrite onmessage_run.
    destruct (acceptedAudio msg s) as [audio|];
      [destruct (decoded audio)|]; cbn [stateOf fst snd].
    + right. apply (withTranscripts_sources msg (enqueued s)).
    + left. split; reflexivity.
    + left. apply withTranscripts_sources.
  - rewrite onmessage_arrived_run.
    destruct (acceptedAudio msg s); cbn [stateOf fst snd]; left.
    + split; reflexivity.
    + apply withTranscripts_sources.
  - rewrite onmessage_settled_run.
    destruct (acceptedAudio msg s) as [audio|];
      [destruct (decoded audio)|]; cbn [stateOf fst snd].
    + right. apply (withTranscripts_sources msg (started s)).
    + left. split; reflexivity.
    + left. split; reflexivity.
Qed.

Lemma message_wellFormed (s s' : State) :
  wellFormed s ->
  (audioSourcesRef s' = audioSourcesRef s /\ nextNode s' = nextNode s)
  \/ (audioSourcesRef s' = JsSet.add (nextNode s) (audioSourcesRef s)
      /\ nextNode s' = Pos.succ (nextNode s)) ->
  wellFormed s'.
Proof.
  intros [Hnd Hlt] [[Hs Hn]|[Hs Hn]]; unfold wellFormed; rewrite Hs, Hn.
  - split; assumption.
  - destruct (add_fresh _ _ Hlt) as [Hnin Hadd]. rewrite Hadd. split.
    + apply NoDup_app. split; [exact Hnd|]. split; [|apply NoDup_singleton].
      intros x Hx Hx'. apply list_elem_of_singleton in Hx'. subst x.
      contradiction.
    + apply Forall_app. split.
      * eapply Forall_impl; [exact Hlt|]. cbn. intros x Hx. lia.
      * constructor; [lia | constructor].
Qed.

Lemma handle_wellFormed (e : Event) (s : State) :
  wellFormed s -> wellFormed (stateOf (handle e s)).
Proof.
  intros Hwf. pose proof Hwf as [Hnd Hlt].
  destruct (stops e s) eqn:Hstop.
  { rewrite (handle_stops e s Hstop), stopLiveSession_run.
    split; [apply NoDup_nil_2 | apply Forall_nil_2]. }
  destruct e as [env| | |now msg| | |n|data|msg|now msg];
    try discriminate Hstop;
    try (match goal with
         | |- wellFormed (stateOf (handle ?e s)) =>
             apply (message_wellFormed s _ Hwf); exact (message_sources e s)
         end).
  - cbn [stops] in Hstop. rewrite toggle_run, Hstop.
    destruct s as [la ms uv tr ac ls srcs nn], env as [susp mic].
    unfold_handlers. destruct ac, susp, mic; split; assumption.
  - destruct s; split; assumption.
  - destruct s as [la ms uv tr ac ls srcs nn]. unfold_handlers. cbn in *.
    assert (Hd : NoDup (JsSet.delete n srcs)
                 /\ Forall (fun m => (m < nn)%positive) (JsSet.delete n srcs)).
    { unfold JsSet.delete. split; [apply NoDup_filter, Hnd|].
      apply Forall_forall. intros x Hx. apply list_elem_of_filter in Hx as [_ Hx].
      rewrite Forall_forall in Hlt. apply Hlt, Hx. }
    destruct (decide (JsSet.size (JsSet.delete n srcs) = 0%nat)); exact Hd.
  - destruct s; split; assumption.
Qed.

Lemma run_wellFormed (evs : list Event) (s : State) :
  wellFormed s -> wellFormed (fst (run evs s)).
Proof.
  revert s. induction evs as [|e evs IH]; intros s Hs; [exact Hs|].
  rewrite run_cons. cbn [fst]. apply IH, handle_wellFormed, Hs.
Qed.

Lemma init_wellFormed : wellFormed init.
Proof. split; [apply NoDup_nil_2 | apply Forall_nil_2]. Qed.

(** A completion removes its node from the set and clears the speaking
    flag when nothing is left. *)
Lemma onended_run (n : NodeId) (s : State) :
  audioSourcesRef (stateOf (handle (OnEnded n) s))
    = JsSet.delete n (audioSourcesRef s)
  /\ isModelSpeaking (stateOf (handle (OnEnded n) s))
     = if decide (JsSet.delete n (audioSourcesRef s) = [])
       then false else isModelSpeaking s.
Proof.
  destruct s as [la ms uv tr ac ls srcs nn]. unfold_handlers. cbn.
  destruct (decide (JsSet.size (JsSet.delete n srcs) = 0%nat)) as [Hz|Hnz];
    destruct (decide (JsSet.delete n srcs = [])) as [He|Hne]; cbn;
    try (split; reflexivity).
  - apply length_zero_iff_nil in Hz. contradiction.
  - exfalso. apply Hnz. rewrite He. reflexivity.
Qed.

Lemma drain (order : list NodeId) (s : State) :
  (forall n, n ∈ audioSourcesRef s -> n ∈ order) -> order ≠ [] ->
  audioSourcesRef (fst (run (endedEvents order) s)) = []
  /\ isModelSpeaking (fst (run (endedEvents order) s)) = false.
Proof.
  revert s. induction order as [|n rest IH]; intros s Hcover Hne; [congruence|].
  cbn [endedEvents map]. rewrite run_cons. cbn [fst].
  destruct (onended_run n s) as [Hs Hm].
  assert (Hcover' : forall m, m ∈ audioSourcesRef (stateOf (handle (OnEnded n) s))
                              -> m ∈ rest).
  { intros m Hin. rewrite Hs in Hin. unfold JsSet.delete in Hin.
    apply list_elem_of_filter in Hin as [Hmn Hin].
    specialize (Hcover m Hin). apply elem_of_cons in Hcover as [->|Hr];
      [contradiction | exact Hr]. }
  destruct rest as [|n' rest'].
  - cbn [map run fst].
    assert (He : JsSet.delete n (audioSourcesRef s) = []).
    { rewrite <- Hs.
      destruct (audioSourcesRef (stateOf (handle (OnEnded n) s))) as [|m l];
        [reflexivity|].
      exfalso. specialize (Hcover' m ltac:(left)). inversion Hcover'. }
    rewrite Hs, Hm, He. destruct (decide ([] = [])); [split; reflexivity|congruence].
  - apply IH; [exact Hcover' | discriminate].
Qed.

End ActiveSet.

(** X3. In a state reached from the initial one by any sequence of
    events, when the decoding of an accepted audio payload settles: if
    it succeeded, exactly one node is started, at that moment and with
    no [when] argument, for the decoded buffer, and that node, which was
    not in the set of active nodes, is added at its end; if it threw,
    the exception leaves the handler, no node is started and the state
    is left as it was, the speaking flag included. *)
Theorem decoded_audio_adds_one_node {svc : GeminiService} {wa : WebAudio}
    (evs : list Event) (now : Z) (msg : LiveServerMessage) (audio : string) :
  let s := fst (run evs init) in
  let r := handle (OnDecodeSettled now msg) s in
  acceptedAudio msg s = Some audio ->
  match decoded audio with
  | Ok buffer =>
      exists n,
        (n ∉ audioSourcesRef s)
        /\ audioSourcesRef (stateOf r) = audioSourcesRef s ++ [n]
        /\ callsOf r = [SourceStart {| node := n; calledAt := now; when := 0;
                                       bufferLength := frames buffer |}]
  | Err e => r = (Err e, s, [])
  end.
Proof.
  cbv zeta. intros Hacc.
  destruct (run_wellFormed evs init init_wellFormed) as [Hnd Hlt].
  pose proof (settled_accepted now msg _ audio Hacc) as H.
  destruct (decoded audio) as [buffer|e]; [|exact H].
  destruct H as (Hs & _ & Hc).
  destruct (add_fresh _ _ Hlt) as [Hnin Hadd].
  exists (nextNode (fst (run evs init))).
  split; [exact Hnin|]. split; [rewrite Hs, Hadd; reflexivity | exact Hc].
Qed.

Lemma decoded_audio_adds_one_node_witness :
  let evs := [ToggleLive micGranted; OnOpen;
              OnMessage 0 (audioMessage "abcd");
              OnMessage 1 (audioMessage "efgh");
              OnEnded 1%positive;
              OnMessageArrived (audioMessage "ijkl")] in
  let s := fst (@run plainService quietAudio evs init) in
  audioSourcesRef s = [2%positive]
  /\ (exists n,
        (n ∉ audioSourcesRef s)
        /\ audioSourcesRef
             (stateOf (@handle plainService quietAudio
                         (OnDecodeSettled 2 (audioMessage "ijkl")) s))
           = audioSourcesRef s ++ [n]
        /\ callsOf (@handle plainService quietAudio
                      (OnDecodeSettled 2 (audioMessage "ijkl")) s)
           = [SourceStart {| node := n; calledAt := 2; when := 0;
                             bufferLength := 2 |}])
  /\ @handle plainService quietAudio
       (OnDecodeSettled 2 (audioMessage "ijk")) s
     = (Err DecodeError, s, []).
Proof.
  cbv zeta. split; [reflexivity|]. split.
  - apply (@decoded_audio_adds_one_node plainService quietAudio
             [ToggleLive micGranted; OnOpen;
              OnMessage 0 (audioMessage "abcd");
              OnMessage 1 (audioMessage "efgh");
              OnEnded 1%positive;
              OnMessageArrived (audioMessage "ijkl")]
             2 (audioMessage "ijkl") "ijkl"%string).
    reflexivity.
  - apply (@decoded_audio_adds_one_node plainService quietAudio
             [ToggleLive micGranted; OnOpen;
              OnMessage 0 (audioMessage "abcd");
              OnMessage 1 (audioMessage "efgh");
              OnEnded 1%positive;
              OnMessageArrived (audioMessage "ijkl")]
             2 (audioMessage "ijk") "ijk"%string).
    reflexivity.
Defined.

(** X4. In a state reached from the initial one, the teardown calls
    [stop()] exactly once on every active node, in insertion order, and
    calls nothing else. *)
Theorem teardown_stops_each_node_once {svc : GeminiService} {wa : WebAudio}
    (evs : list Event) :
  let s := fst (run evs init) in
  callsOf (stopLiveSession s) = map SourceStop (audioSourcesRef s)
  /\ NoDup (callsOf (stopLiveSession s)).
Proof.
  cbv zeta. rewrite stopLiveSession_run. cbn [callsOf snd].
  destruct (transport_close_never_requested evs init eq_refl) as [Hls _].
  rewrite Hls. cbn [app]. split; [reflexivity|].
  destruct (run_wellFormed evs init init_wellFormed) as [Hnd _].
  assert (Hinj : Inj eq eq SourceStop) by (intros x y Hxy; congruence).
  apply (NoDup_fmap_2 SourceStop). exact Hnd.
Qed.

(** X5. Playback completions arriving for every active node, in any
    order and possibly repeated or mixed with completions of nodes that
    are not in the set, leave the set empty and the speaking flag
    false. *)
Theorem completions_drain_the_set {svc : GeminiService} {wa : WebAudio}
    (order : list NodeId) (s : State) :
  (forall n, n ∈ audioSourcesRef s -> n ∈ order) -> order ≠ [] ->
  audioSourcesRef (fst (run (endedEvents order) s)) = []
  /\ isModelSpeaking (fst (run (endedEvents order) s)) = false.
Proof. apply drain. Qed.

Lemma completions_drain_the_set_witness :
  let s := fst (@run plainService quietAudio
                  [ToggleLive micGranted; OnOpen;
                   OnMessage 0 (audioMessage "abcd");
                   OnMessage 1 (audioMessage "efgh");
                   OnMessage 2 (audioMessage "ijkl")] init) in
  let order := [3; 1; 7; 2; 1]%positive in
  isModelSpeaking s = true
  /\ audioSourcesRef (fst (@run plainService quietAudio (endedEvents order) s))
     = []
  /\ isModelSpeaking (fst (@run plainService quietAudio (endedEvents order) s))
     = false.
Proof.
  cbv zeta. split; [reflexivity|].
  apply (@completions_drain_the_set plainService quietAudio).
  - intros n Hn. vm_compute in Hn.
    repeat (apply elem_of_cons in Hn as [->|Hn];
            [repeat first [apply list_elem_of_here | apply list_elem_of_further]|]).
    inversion Hn.
  - discriminate.
Defined.

(** X6. Only a capture block changes the volume value: every other
    event, the teardown included, leaves it as it was, and a capture
    block sets it to the loudness of that block whether or not a session
    is active. *)
Theorem volume_changes_only_on_capture {svc : GeminiService} {wa : WebAudio}
    (e : Event) (data : list Js.number) (s : State) :
  (isAudioProcess e = false ->
   userVolume (stateOf (handle e s)) = userVolume s)
  /\ userVolume (stateOf (handle (OnAudioProcess data) s)) = Capture.rms data.
Proof.
  split; [|destruct s; reflexivity].
  intros He.
  destruct (stops e s) eqn:Hstop.
  { rewrite (handle_stops e s Hstop), stopLiveSession_run. reflexivity. }
  destruct s as [la ms uv tr ac ls srcs nn].
  destruct e as [env| | |now msg| | |n|d|msg|now msg];
    try discriminate Hstop; try discriminate He.
  - cbn in Hstop. subst la. destruct env as [susp mic]. unfold_handlers.
    destruct ac, susp, mic; reflexivity.
  - reflexivity.
  - cbn [handle]. rewrite onmessage_run.
    message_cases msg {| isLiveActive := la; isModelSpeaking := ms;
                         userVolume := uv; transcriptions := tr;
                         audioContextRef := ac; liveSessionRef := ls;
                         audioSourcesRef := srcs; nextNode := nn |};
      reflexivity.
  - unfold_handlers. cbn.
    destruct (decide (JsSet.size (JsSet.delete n srcs) = 0%nat)); reflexivity.
  - cbn [handle]. rewrite onmessage_arrived_run. unfold withTranscripts.
    destruct (acceptedAudio msg _), (inputTranscriptionOf msg),
      (outputTranscriptionOf msg); reflexivity.
  - cbn [handle]. rewrite onmessage_settled_run.
    message_cases msg {| isLiveActive := la; isModelSpeaking := ms;
                         userVolume := uv; transcriptions := tr;
                         audioContextRef := ac; liveSessionRef := ls;
                         audioSourcesRef := srcs; nextNode := nn |};
      reflexivity.
Qed.

Lemma volume_changes_only_on_capture_witness :
  let s := fst (@run plainService quietAudio
                  [ToggleLive micGranted; OnOpen;
                   OnAudioProcess [Js.dyadic 1 (-1); Js.dyadic 1 (-1)]] init) in
  userVolume (stateOf (@handle plainService quietAudio OnError s))
  = Js.dyadic 1 (-1)
  /\ userVolume
       (stateOf (@handle plainService quietAudio
                   (OnAudioProcess [Js.dyadic 1 0]) 
                   (stateOf (@handle plainService quietAudio OnError s))))
     = Js.dyadic 1 0.
Proof.
  cbv zeta. split.
  - pose proof (@volume_changes_only_on_capture plainService quietAudio
                  OnError [] 
                  (fst (@run plainService quietAudio
                     [ToggleLive micGranted; OnOpen;
                      OnAudioProcess [Js.dyadic 1 (-1); Js.dyadic 1 (-1)]] init)))
      as [H _].
    rewrite (H eq_refl). reflexivity.
  - reflexivity.
Defined.

Lemma ToInt16_range (x : Js.number) : -32768 <= Js.ToInt16 x <= 32767.
Proof.
  destruct x as [b|b| |b m e]; cbn [Js.ToInt16]; try lia.
  apply signed16_range, Z.mod_pos_bound. lia.
Qed.

Lemma ToInt16_not_finite (x : Js.number) :
  Js.finite x = false -> Capture.int16_of_sample x = 0.
Proof. destruct x as [b|b| |b m e]; try discriminate; reflexivity. Qed.

(** X7. Whatever a capture block holds, the samples sent for it are
    16-bit integers, one per input sample, with 0 for a sample that is
    NaN or infinite; the payload encodes two bytes per sample and goes
    out in one [sendRealtimeInput] call marked as 16 kHz PCM, whether or
    not a session is active. *)
Theorem capture_block_is_int16 {svc : GeminiService} {wa : WebAudio}
    (data : list Js.number) (s : State) :
  let samples := Capture.int16_of_block data in
  let bytes := Js.Uint8Array_of_Int16Array samples in
  Forall (fun v => -32768 <= v <= 32767) samples
  /\ Forall2 (fun x v => Js.finite x = false -> v = 0) data samples
  /\ List.length bytes = (2 * List.length data)%nat
  /\ callsOf (handle (OnAudioProcess data) s)
     = [SendRealtimeInput (encodePCM bytes) "audio/pcm;rate=16000"].
Proof.
  cbv zeta. split; [|split; [|split]].
  - unfold Capture.int16_of_block. apply Forall_forall. intros v Hv.
    apply list_elem_of_In, in_map_iff in Hv as (x & <- & _).
    apply ToInt16_range.
  - unfold Capture.int16_of_block.
    induction data as [|x data IH]; constructor; [|exact IH].
    apply ToInt16_not_finite.
  - unfold Js.Uint8Array_of_Int16Array, Capture.int16_of_block.
    induction data as [|x data IH]; [reflexivity|].
    cbn [map flat_map]. rewrite length_app, IH. cbn. lia.
  - reflexivity.
Qed.

Lemma capture_block_is_int16_witness :
  Capture.int16_of_block
    [Js.dyadic 3 0; S754_nan; S754_infinity true; Js.dyadic (-1) (-1)]
  = [-32768; 0; 0; -16384].
Proof.
  pose proof (@capture_block_is_int16 plainService quietAudio
                [Js.dyadic 3 0; S754_nan; S754_infinity true;
                 Js.dyadic (-1) (-1)] init) as H.
  cbv zeta in H. destruct H as (_ & H & _).
  inversion H as [|? v1 ? l1 _ H1]; subst.
  inversion H1 as [|? v2 ? l2 Hnan H2]; subst.
  inversion H2 as [|? v3 ? l3 Hinf _]; subst.
  reflexivity.
Defined.

Section Starts.
Context {svc : GeminiService} {wa : WebAudio}.




End Starts.


End LiveMore.

(** ** Arrays: stable sort and removal by index *)

Module ArrayFacts.

Section SortByKey.
Context {A : Type} (key : A -> Z).

Lemma insert_perm (x : A) (l : list A) :
  Permutation (JsArray.insert (JsArray.byKeyDescending key) x l) (x :: l).
Proof.
  induction l as [|y l IH]; cbn [JsArray.insert]; [reflexivity|].
  destruct ((JsArray.byKeyDescending key) y x <? 0); [|reflexivity].
  rewrite IH. apply perm_swap.
Qed.

Lemma sort_perm (l : list A) :
  Permutation (JsArray.sort (JsArray.byKeyDescending key) l) l.
Proof.
  induction l as [|x l IH]; [reflexivity|].
  cbn [JsArray.sort fold_right]. rewrite insert_perm.
  constructor. exact IH.
Qed.

Lemma insert_descending (x : A) (l : list A) :
  JsArray.descending key l ->
  JsArray.descending key (JsArray.insert (JsArray.byKeyDescending key) x l).
Proof.
  unfold JsArray.descending.
  induction 1 as [|y l Hl IH Hy]; cbn [JsArray.insert].
  - repeat constructor.
  - unfold JsArray.byKeyDescending at 1.
    destruct (Z.ltb_spec (key x - key y) 0) as [Hlt|Hge].
    + constructor; [exact IH|].
      apply Forall_forall. intros z Hz.
      apply list_elem_of_In, (Permutation_in _ (insert_perm x l)) in Hz.
      destruct Hz as [<-|Hz]; [lia|].
      rewrite Forall_forall in Hy. apply Hy, list_elem_of_In, Hz.
    + constructor; [constructor; assumption|].
      constructor; [lia|].
      eapply Forall_impl; [exact Hy|]. cbn. intros z Hz. lia.
Qed.

Lemma sort_descending (l : list A) :
  JsArray.descending key (JsArray.sort (JsArray.byKeyDescending key) l).
Proof.
  induction l as [|x l IH]; [constructor|].
  cbn [JsArray.sort fold_right]. apply insert_descending, IH.
Qed.

(** Elements with the same key keep their relative order. *)
Lemma insert_stable (u : Z) (x : A) (l : list A) :
  JsArray.descending key l ->
  List.filter (fun a => key a =? u)
    (JsArray.insert (JsArray.byKeyDescending key) x l)
  = List.filter (fun a => key a =? u) (x :: l).
Proof.
  unfold JsArray.descending.
  induction 1 as [|y l Hl IH Hy]; [reflexivity|].
  cbn [JsArray.insert]. unfold JsArray.byKeyDescending at 1.
  destruct (Z.ltb_spec (key x - key y) 0) as [Hlt|Hge]; [|reflexivity].
  cbn [List.filter] in *. rewrite IH.
  destruct (Z.eqb_spec (key x) u) as [Hx|Hx];
    destruct (Z.eqb_spec (key y) u) as [Hyu|Hyu]; try reflexivity.
  lia.
Qed.

Lemma sort_stable (u : Z) (l : list A) :
  List.filter (fun a => key a =? u)
    (JsArray.sort (JsArray.byKeyDescending key) l)
  = List.filter (fun a => key a =? u) l.
Proof.
  induction l as [|x l IH]; [reflexivity|].
  cbn [JsArray.sort fold_right].
  rewrite insert_stable by apply sort_descending.
  cbn [List.filter]. fold (JsArray.sort (JsArray.byKeyDescending key) l). rewrite IH. reflexivity.
Qed.

End SortByKey.

Lemma removeAt_take_drop {A : Type} (i : nat) (l : list A) :
  JsArray.removeAt i l = take i l ++ drop (S i) l.
Proof.
  revert i. induction l as [|x l IH]; intros [|i]; cbn; try reflexivity.
  rewrite IH. reflexivity.
Qed.

End ArrayFacts.

(** ** Chat threads *)

Module ChatFacts.
Import Chat.

Lemma includes_empty (s : string) : JsText.includes s "" = true.
Proof. destruct s; reflexivity. Qed.

Section Threads.
Context {ops : JsText.Ops}.

(** The active thread, when some thread carries the active id, is the
    first such thread. *)
Lemma activeThread_found (now : Z) (s : State) :
  activeExists s ->
  activeThread now s ∈ threads s
  /\ ChatThread.id (activeThread now s) = activeThreadId s.
Proof.
  intros (t & Ht & Hid). unfold activeThread.
  destruct (find _ (threads s)) as [t'|] eqn:Hf.
  - apply find_some in Hf as [Hin Heq]. apply String.eqb_eq in Heq.
    split; [apply list_elem_of_In, Hin | exact Heq].
  - exfalso. apply list_elem_of_In in Ht.
    pose proof (find_none _ _ Hf t Ht) as Hn. cbn in Hn.
    apply String.eqb_neq in Hn. contradiction.
Qed.

Lemma activeThread_total (now : Z) (s : State) :
  threads s ≠ [] -> activeThread now s ∈ threads s.
Proof.
  intros Hne. unfold activeThread.
  destruct (find _ (threads s)) as [t'|] eqn:Hf.
  - apply find_some in Hf as [Hin _]. apply list_elem_of_In, Hin.
  - destruct (threads s); [congruence | left].
Qed.

Lemma activeExists_intro (s : State) (t : ChatThread.t) :
  t ∈ threads s -> ChatThread.id t = activeThreadId s -> activeExists s.
Proof. intros Ht Hid. exists t. split; assumption. Qed.

(** Rewriting the threads without touching their ids keeps the active
    thread in place. *)
Lemma activeExists_map (f : ChatThread.t -> ChatThread.t) (s : State) :
  (forall t, ChatThread.id (f t) = ChatThread.id t) ->
  activeExists s -> activeExists (setThreads (map f) s).
Proof.
  intros Hf (t & Ht & Hid). exists (f t). split.
  - cbn. apply (list_elem_of_fmap_2 f), Ht.
  - rewrite Hf. exact Hid.
Qed.

Lemma deleteThread_activeExists (i : string) (now : Z) (s : State) :
  activeExists s -> activeExists (deleteThread i now s).
Proof.
  intros (t & Ht & Hid). unfold deleteThread.
  destruct (List.filter _ (threads s)) as [|first rest] eqn:Hf.
  - eexists. split; [left | reflexivity].
  - destruct (String.eqb_spec (activeThreadId s) i) as [He|Hne].
    + exists first. split; [left | reflexivity].
    + exists t. split; [|exact Hid]. cbn. rewrite <- Hf.
      apply list_elem_of_In, filter_In. split; [apply list_elem_of_In, Ht|].
      apply negb_true_iff, String.eqb_neq. congruence.
Qed.

Lemma sidebarThreads_subset (s : State) (t : ChatThread.t) :
  In t (sidebarThreads s) -> t ∈ threads s.
Proof.
  intros Hin. unfold sidebarThreads in Hin.
  apply (Permutation_in _ (ArrayFacts.sort_perm ChatThread.lastUpdate _)) in Hin.
  unfold filteredThreads in Hin. apply filter_In in Hin as [Hin _].
  apply list_elem_of_In, Hin.
Qed.

Lemma act_activeExists (a : Action) (s : State) :
  activeExists s -> activeExists (act a s).
Proof.
  intros Hs.
  destruct a as [i now w|i now|i w|mid| |o clock throws now]; cbn [act].
  - unfold createNewChat. cbv zeta.
    destruct (w <? 1024); eexists; (split; [left | reflexivity]).
  - apply deleteThread_activeExists, Hs.
  - unfold selectThread.
    destruct (nth_error (sidebarThreads s) i) as [t|] eqn:Hn; [|exact Hs].
    apply nth_error_In, sidebarThreads_subset in Hn.
    cbv zeta. destruct (w <? 1024); exists t; (split; [exact Hn | reflexivity]).
  - unfold toggleFavorite. apply activeExists_map; [reflexivity | exact Hs].
  - unfold onClearChat. apply activeExists_map; [|exact Hs].
    intros t. destruct (ChatThread.id t =? activeThreadId s)%string; reflexivity.
  - unfold handleSendMessage_submit. cbv zeta.
    destruct (negb _ && _); [exact Hs|].
    assert (Hsub : activeExists
              (setThreads
                 (map (submitted
                         (ChatThread.messages (activeThread now s)
                          ++ [userMessage (submittedText o s) clock s])
                         (updateNow clock) (activeThreadId s))) s)).
    { apply activeExists_map; [|exact Hs]. intros t. unfold submitted.
      destruct (ChatThread.id t =? activeThreadId s)%string; reflexivity. }
    destruct throws; [exact Hsub|].
    destruct (isImageRequest _); [exact Hsub|].
    destruct Hsub as (t & Ht & Hid). eexists. split.
    + cbn. apply (list_elem_of_fmap_2 _ _ t), Ht.
    + unfold replied.
      destruct (ChatThread.id t =? activeThreadId s)%string; exact Hid.
Qed.

Lemma acts_activeExists (l : list Action) (s : State) :
  activeExists s -> activeExists (acts l s).
Proof.
  revert s. induction l as [|a l IH]; intros s Hs; [exact Hs|].
  cbn [acts fold_left]. apply IH, act_activeExists, Hs.
Qed.

Lemma init_activeExists (now : Z) : activeExists (init now).
Proof. eexists. split; [left | reflexivity]. Qed.

End Threads.

(** X8. Whatever the user does with the threads (new chat, delete,
    select in the sidebar, bookmark, clear, send), starting from the
    initial state the list of threads is never empty and the active id
    always names one of them; the active thread is then a thread of the
    list with that id, never the first-thread or placeholder substitute. *)
Theorem active_thread_always_exists {ops : JsText.Ops}
    (l : list Action) (now0 now : Z) :
  let s := acts l (init now0) in
  threads s ≠ []
  /\ activeExists s
  /\ activeThread now s ∈ threads s
  /\ ChatThread.id (activeThread now s) = activeThreadId s.
Proof.
  cbv zeta.
  pose proof (acts_activeExists l (init now0) (init_activeExists now0)) as Hs.
  destruct (activeThread_found now _ Hs) as [Hin Hid].
  split; [|split; [exact Hs | split; assumption]].
  destruct Hs as (t & Ht & _). intros Hnil. rewrite Hnil in Ht. inversion Ht.
Qed.

Section Deleting.

Lemma filter_keeps_all (i : string) (l : list ChatThread.t) :
  (forall t, t ∈ l -> ChatThread.id t ≠ i) ->
  List.filter (fun t => negb (ChatThread.id t =? i)%string) l = l.
Proof.
  induction l as [|t l IH]; intros Hall; [reflexivity|].
  cbn [List.filter].
  assert (Ht : (ChatThread.id t =? i)%string = false)
    by (apply String.eqb_neq, Hall; left).
  rewrite Ht. cbn [negb]. f_equal. apply IH.
  intros t' Ht'. apply Hall. right. exact Ht'.
Qed.

Lemma filter_keeps_none (i : string) (l : list ChatThread.t) :
  (forall t, t ∈ l -> ChatThread.id t = i) ->
  List.filter (fun t => negb (ChatThread.id t =? i)%string) l = [].
Proof.
  induction l as [|t l IH]; intros Hall; [reflexivity|].
  cbn [List.filter].
  assert (Ht : (ChatThread.id t =? i)%string = true)
    by (apply String.eqb_eq, Hall; left).
  rewrite Ht. cbn [negb]. apply IH.
  intros t' Ht'. apply Hall. right. exact Ht'.
Qed.

Lemma filter_survivor (i : string) (l : list ChatThread.t) (t : ChatThread.t) :
  t ∈ l -> ChatThread.id t ≠ i ->
  List.filter (fun t => negb (ChatThread.id t =? i)%string) l ≠ [].
Proof.
  intros Ht Hid Hnil.
  assert (Hin : In t (List.filter
                        (fun t => negb (ChatThread.id t =? i)%string) l)).
  { apply filter_In. split; [apply list_elem_of_In, Ht|].
    apply negb_true_iff, String.eqb_neq, Hid. }
  rewrite Hnil in Hin. exact Hin.
Qed.

End Deleting.

(** X9. Deleting a thread never leaves the list empty.  When a thread
    with another id exists, every thread with the deleted id is gone, the
    others stay, and the active id changes only if it was the deleted
    one.  When every thread has the deleted id, the list becomes one
    fresh thread with id "reset", which is made active: deleting the
    last thread when its id is "reset" leaves a thread with that very
    id.  Deleting an id no thread has, other than the active id, changes
    nothing. *)
Theorem deleteThread_outcome (i : string) (now : Z) (s : State) :
  let s' := deleteThread i now s in
  threads s' ≠ []
  /\ ((exists t, t ∈ threads s /\ ChatThread.id t ≠ i) ->
      (forall t, t ∈ threads s' <-> t ∈ threads s /\ ChatThread.id t ≠ i)
      /\ (activeThreadId s ≠ i -> activeThreadId s' = activeThreadId s))
  /\ ((forall t, t ∈ threads s -> ChatThread.id t = i) ->
      threads s' = [emptyThread "reset" "New Session" roast now]
      /\ activeThreadId s' = "reset"%string)
  /\ ((forall t, t ∈ threads s -> ChatThread.id t ≠ i) ->
      threads s ≠ [] -> activeThreadId s ≠ i -> s' = s).
Proof.
  cbv zeta. unfold deleteThread. split; [|split; [|split]].
  - destruct (List.filter _ (threads s)) as [|first rest] eqn:Hf; [discriminate|].
    destruct (activeThreadId s =? i)%string; cbn; discriminate.
  - intros (t & Ht & Hid).
    pose proof (filter_survivor i (threads s) t Ht Hid) as Hne.
    destruct (List.filter _ (threads s)) as [|first rest] eqn:Hf; [congruence|].
    assert (Hth : forall u, u ∈ first :: rest
                            <-> u ∈ threads s /\ ChatThread.id u ≠ i).
    { intros u. rewrite <- Hf, !list_elem_of_In, filter_In, negb_true_iff,
        String.eqb_neq. reflexivity. }
    split.
    + intros u. rewrite <- Hth.
      destruct (activeThreadId s =? i)%string; cbn; reflexivity.
    + intros Ha. apply String.eqb_neq in Ha. rewrite Ha. reflexivity.
  - intros Hall. rewrite (filter_keeps_none i _ Hall). split; reflexivity.
  - intros Hall Hne Ha. rewrite (filter_keeps_all i _ Hall).
    apply String.eqb_neq in Ha. rewrite Ha.
    destruct s as [ts a it ty sb q1 q2 sf pe su th at']. cbn in *.
    destruct ts; [congruence | reflexivity].
Qed.

Lemma deleteThread_outcome_witness :
  let s := createNewChat "reset" 5 2000 (init 1) in
  map ChatThread.id (threads (deleteThread "initial" 9 s)) = ["reset"%string]
  /\ threads (deleteThread "reset" 12 (deleteThread "initial" 9 s))
     = [emptyThread "reset" "New Session" roast 12]
  /\ deleteThread "nobody" 9 s = s.
Proof.
  cbv zeta. split; [reflexivity|]. split.
  - apply (deleteThread_outcome "reset" 12
             (deleteThread "initial" 9 (createNewChat "reset" 5 2000 (init 1)))).
    intros t Ht. apply list_elem_of_singleton in Ht. subst t. reflexivity.
  - apply (deleteThread_outcome "nobody" 9
             (createNewChat "reset" 5 2000 (init 1))).
    + intros t Ht. cbn in Ht.
      apply elem_of_cons in Ht as [->|Ht]; [discriminate|].
      apply list_elem_of_singleton in Ht. subst t. discriminate.
    + discriminate.
    + discriminate.
Defined.

(** X10. A new chat goes first in the list and is the active thread,
    also when the drawn id is already the id of another thread; the
    older threads follow unchanged.  Deleting it again, when its id was
    new, gives back the old list, but the active thread is then the
    first thread of that list, not the one that was active before. *)
Theorem createNewChat_then_delete
    (i : string) (now innerWidth now' now'' : Z) (s : State) :
  let s1 := createNewChat i now innerWidth s in
  let new := emptyThread i "New Session" (PersonaConfig.mode (persona s)) now in
  threads s1 = new :: threads s
  /\ activeThread now' s1 = new
  /\ suggestions s1 = []
  /\ ((forall t, t ∈ threads s -> ChatThread.id t ≠ i) ->
      forall first rest, threads s = first :: rest ->
      threads (deleteThread i now'' s1) = threads s
      /\ activeThreadId (deleteThread i now'' s1) = ChatThread.id first).
Proof.
  cbv zeta.
  assert (H1 : threads (createNewChat i now innerWidth s)
               = emptyThread i "New Session" (PersonaConfig.mode (persona s)) now
                 :: threads s
               /\ activeThreadId (createNewChat i now innerWidth s) = i
               /\ suggestions (createNewChat i now innerWidth s) = []).
  { unfold createNewChat. cbv zeta. destruct (innerWidth <? 1024);
      repeat split. }
  destruct H1 as (Hth & Hact & Hsug).
  split; [exact Hth|]. split; [|split; [exact Hsug|]].
  - unfold activeThread. rewrite Hth, Hact. cbn [find emptyThread ChatThread.id].
    rewrite String.eqb_refl. reflexivity.
  - intros Hfresh first rest Hs. unfold deleteThread. rewrite Hth, Hact.
    cbn [List.filter emptyThread ChatThread.id].
    rewrite String.eqb_refl. cbn [negb].
    rewrite (filter_keeps_all i _ Hfresh), Hs. split; reflexivity.
Qed.

Lemma createNewChat_then_delete_witness :
  let s := createNewChat "b" 7 500 (createNewChat "a" 5 2000 (init 1)) in
  let s' := setActiveThreadId "a" s in
  map ChatThread.id (threads (deleteThread "c" 9 (createNewChat "c" 8 500 s')))
  = ["b"; "a"; "initial"]%string
  /\ activeThreadId (deleteThread "c" 9 (createNewChat "c" 8 500 s'))
     = "b"%string.
Proof.
  cbv zeta.
  destruct (createNewChat_then_delete "c" 8 500 0 9
              (setActiveThreadId "a"
                 (createNewChat "b" 7 500 (createNewChat "a" 5 2000 (init 1)))))
    as (_ & _ & _ & H).
  edestruct H as [Hth Hact]; [|reflexivity|].
  - intros t Ht. cbn in Ht.
    repeat (apply elem_of_cons in Ht as [->|Ht]; [discriminate|]).
    inversion Ht.
  - rewrite Hth, Hact. split; reflexivity.
Defined.

(** X11. Bookmarking flips the favourite status of exactly the messages
    with the given id, in every thread, and changes nothing else of any
    message or thread; doing it twice gives every message its favourite
    status back. *)
Theorem toggleFavorite_flips (messageId : string) (s : State) :
  Forall2
    (fun t t' =>
       withMessages [] t' = withMessages [] t
       /\ Forall2
            (fun m m' =>
               sameButFavorite m m'
               /\ favorite m'
                  = (if (Message.id m =? messageId)%string
                     then negb (favorite m) else favorite m)
               /\ ((Message.id m =? messageId)%string = false -> m' = m))
            (ChatThread.messages t) (ChatThread.messages t'))
    (threads s) (threads (toggleFavorite messageId s))
  /\ activeThreadId (toggleFavorite messageId s) = activeThreadId s
  /\ map (fun t => map favorite (ChatThread.messages t))
         (threads (toggleFavorite messageId (toggleFavorite messageId s)))
     = map (fun t => map favorite (ChatThread.messages t)) (threads s).
Proof.
  split; [|split; [reflexivity|]].
  - cbn. induction (threads s) as [|t l IH]; constructor; [|exact IH].
    split; [reflexivity|]. cbn.
    induction (ChatThread.messages t) as [|m ms IHm]; constructor; [|exact IHm].
    destruct (Message.id m =? messageId)%string.
    + split; [reflexivity|]. split; [reflexivity | discriminate].
    + split; [reflexivity|]. split; reflexivity.
  - cbn. rewrite !map_map. apply map_ext. intros t. cbn.
    rewrite !map_map. apply map_ext. intros m.
    destruct (Message.id m =? messageId)%string eqn:He; cbn.
    + rewrite He. cbn. apply negb_involutive.
    + rewrite He. reflexivity.
Qed.

Lemma toggleFavorite_flips_witness :
  let m := {| Message.id := "m1"; Message.role := USER; Message.text := "hi";
              Message.timestamp := 3; Message.attachments := None;
              Message.isImageGeneration := None;
              Message.groundingMetadata := None;
              Message.isFavorite := None |} in
  let s := setThreads (map (withMessages [m])) (init 1) in
  map (fun t => map favorite (ChatThread.messages t))
      (threads (toggleFavorite "m1" s)) = [[true]]
  /\ map (fun t => map favorite (ChatThread.messages t))
         (threads (toggleFavorite "m1" (toggleFavorite "m1" s))) = [[false]]
  /\ threads (toggleFavorite "other" s) = threads s.
Proof.
  cbv zeta. split; [reflexivity|]. split.
  - etransitivity; [apply toggleFavorite_flips | reflexivity].
  - reflexivity.
Defined.

Section Sending.
Context {ops : JsText.Ops}.

Lemma nonEmpty_false (t : string) : JsText.nonEmpty t = false <-> t = ""%string.
Proof. destruct t; split; intros H; try reflexivity; discriminate H. Qed.

Lemma find_submitted (updated : list Message.t) (u : Z) (a : string)
    (l : list ChatThread.t) :
  find (fun t => (ChatThread.id t =? a)%string) (map (submitted updated u a) l)
  = option_map (submitted updated u a)
      (find (fun t => (ChatThread.id t =? a)%string) l).
Proof.
  induction l as [|t l IH]; [reflexivity|]. cbn [map find].
  unfold submitted at 1 3.
  destruct (ChatThread.id t =? a)%string eqn:He; cbn.
  - rewrite He. reflexivity.
  - rewrite He. exact IH.
Qed.

Lemma submitted_absent (updated : list Message.t) (u : Z) (a : string)
    (l : list ChatThread.t) :
  (forall t, t ∈ l -> ChatThread.id t ≠ a) -> map (submitted updated u a) l = l.
Proof.
  induction l as [|t l IH]; intros Hall; [reflexivity|]. cbn [map].
  unfold submitted at 1.
  assert (Ht : (ChatThread.id t =? a)%string = false)
    by (apply String.eqb_neq, Hall; left).
  rewrite Ht. f_equal. apply IH. intros t' Ht'. apply Hall. right. exact Ht'.
Qed.

Lemma find_replied (m : Message.t) (a : string) (l : list ChatThread.t) :
  find (fun t => (ChatThread.id t =? a)%string) (map (replied m a) l)
  = option_map (replied m a)
      (find (fun t => (ChatThread.id t =? a)%string) l).
Proof.
  induction l as [|t l IH]; [reflexivity|]. cbn [map find].
  unfold replied at 1 3.
  destruct (ChatThread.id t =? a)%string eqn:He; cbn.
  - rewrite He. reflexivity.
  - rewrite He. exact IH.
Qed.

Lemma replied_absent (m : Message.t) (a : string) (l : list ChatThread.t) :
  (forall t, t ∈ l -> ChatThread.id t ≠ a) -> map (replied m a) l = l.
Proof.
  induction l as [|t l IH]; intros Hall; [reflexivity|]. cbn [map].
  unfold replied at 1.
  assert (Ht : (ChatThread.id t =? a)%string = false)
    by (apply String.eqb_neq, Hall; left).
  rewrite Ht. f_equal. apply IH. intros t' Ht'. apply Hall. right. exact Ht'.
Qed.

Lemma submitted_related (updated : list Message.t) (u : Z) (a : string)
    (l : list ChatThread.t) :
  Forall2 (fun t t' => ChatThread.id t' = ChatThread.id t
                       /\ (ChatThread.id t ≠ a -> t' = t))
    l (map (submitted updated u a) l).
Proof.
  induction l as [|t l IH]; constructor; [|exact IH].
  unfold submitted.
  destruct (String.eqb_spec (ChatThread.id t) a);
    split; try reflexivity; intros; congruence.
Qed.

Lemma answered_related (updated : list Message.t) (u : Z) (a : string)
    (m : Message.t) (l : list ChatThread.t) :
  Forall2 (fun t t' => ChatThread.id t' = ChatThread.id t
                       /\ (ChatThread.id t ≠ a -> t' = t))
    l (map (replied m a) (map (submitted updated u a) l)).
Proof.
  induction l as [|t l IH]; constructor; [|exact IH].
  unfold replied, submitted.
  destruct (ChatThread.id t =? a)%string eqn:He; cbn; rewrite He.
  - apply String.eqb_eq in He. split; [reflexivity | congruence].
  - split; reflexivity.
Qed.

(** The threads after the two updates of App.tsx:124 and 144. *)
Lemma sent_threads (updated : list Message.t) (u : Z) (a : string)
    (m : Message.t) (now : Z) (s : State) :
  let sent := map (submitted updated u a) (threads s) in
  let answered := map (replied m a) sent in
  let related (l : list ChatThread.t) :=
    Forall2 (fun t t' => ChatThread.id t' = ChatThread.id t
                         /\ (ChatThread.id t ≠ a -> t' = t)) (threads s) l in
  let at_ (l : list ChatThread.t) :=
    activeThread now (setThreads (fun _ => l) (setActiveThreadId a s)) in
  related sent
  /\ (activeExists (setActiveThreadId a s) ->
      ChatThread.messages (at_ sent) = updated
      /\ ChatThread.lastUpdate (at_ sent) = u)
  /\ (related answered
      /\ (~ activeExists (setActiveThreadId a s) -> answered = threads s))
  /\ (activeExists (setActiveThreadId a s) ->
      ChatThread.messages (at_ answered) = updated ++ [m]
      /\ ChatThread.lastUpdate (at_ answered) = u)
  /\ (~ activeExists (setActiveThreadId a s) -> sent = threads s).
Proof.
  cbv zeta.
  assert (Habsent : ~ activeExists (setActiveThreadId a s) ->
                    forall t, t ∈ threads s -> ChatThread.id t ≠ a).
  { intros Hno t Ht Hid. apply Hno. exists t. split; assumption. }
  assert (Hfound : activeExists (setActiveThreadId a s) ->
                   exists t, find (fun t => (ChatThread.id t =? a)%string)
                               (threads s) = Some t
                             /\ (ChatThread.id t =? a)%string = true).
  { intros (t & Ht & Hid). cbn in Ht, Hid.
    destruct (find _ (threads s)) as [t'|] eqn:Hf.
    - exists t'. split; [reflexivity|]. apply find_some in Hf as [_ Heq].
      exact Heq.
    - exfalso. apply list_elem_of_In in Ht.
      pose proof (find_none _ _ Hf t Ht) as Hn. cbn in Hn.
      apply String.eqb_neq in Hn. contradiction. }
  split; [|split; [|split; [|split]]].
  - apply submitted_related.
  - intros Hex. destruct (Hfound Hex) as (t & Hf & Heq).
    unfold activeThread. cbn [threads activeThreadId setThreads
                                setActiveThreadId].
    rewrite find_submitted, Hf. cbn [option_map]. unfold submitted.
    rewrite Heq. split; reflexivity.
  - split.
    + apply answered_related.
    + intros Hno. rewrite submitted_absent by exact (Habsent Hno).
      apply replied_absent, (Habsent Hno).
  - intros Hex. destruct (Hfound Hex) as (t & Hf & Heq).
    unfold activeThread. cbn [threads activeThreadId setThreads
                                setActiveThreadId].
    rewrite find_replied, find_submitted, Hf. cbn [option_map].
    unfold replied, submitted. rewrite Heq. cbn. rewrite Heq.
    split; reflexivity.
  - intros Hno. apply submitted_absent, (Habsent Hno).
Qed.

End Sending.

(** X12. Sending, up to the point where the reply is awaited: with
    blank text and no attachment nothing changes.  Otherwise the input
    and the attachments are cleared; when a thread carries the active
    id, the active thread gets the user message and after it, unless the
    text is an image command or the service throws, the empty model
    message that the reply will fill in, its last-update time is
    refreshed, and no thread with another id changes; when no thread
    carries the active id, nothing is stored in any thread.  The typing
    flag is raised, unless the service throws: then it is down again. *)
Theorem submit_appends_to_active {ops : JsText.Ops}
    (overrideText : option string) (clock : SubmitClock)
    (serviceThrows : bool) (now now' : Z) (s : State) :
  let text := submittedText overrideText s in
  let s' := handleSendMessage_submit overrideText clock serviceThrows now s in
  let reply :=
    if serviceThrows || isImageRequest text then []
    else [modelMessage clock] in
  (text = ""%string -> attachments s = [] -> s' = s)
  /\ (text ≠ ""%string \/ attachments s ≠ [] ->
      inputText s' = ""%string /\ attachments s' = []
      /\ isTyping s' = negb serviceThrows
      /\ activeThreadId s' = activeThreadId s
      /\ Forall2 (fun t t' => ChatThread.id t' = ChatThread.id t
                              /\ (ChatThread.id t ≠ activeThreadId s -> t' = t))
           (threads s) (threads s')
      /\ (activeExists s ->
          ChatThread.messages (activeThread now' s')
            = ChatThread.messages (activeThread now s)
              ++ userMessage text clock s :: reply
          /\ ChatThread.lastUpdate (activeThread now' s') = updateNow clock)
      /\ (~ activeExists s -> threads s' = threads s)).
Proof.
  cbv zeta. unfold handleSendMessage_submit. cbv zeta. split.
  - intros Ht Ha. rewrite Ht, Ha. reflexivity.
  - intros Hgo.
    assert (Hguard : negb (JsText.nonEmpty (submittedText overrideText s))
                     && Nat.eqb (List.length (attachments s)) 0 = false).
    { apply andb_false_iff. destruct Hgo as [Ht|Ha].
      - left. apply negb_false_iff.
        destruct (JsText.nonEmpty _) eqn:Hn; [reflexivity|].
        apply nonEmpty_false in Hn. contradiction.
      - right. destruct (attachments s); [congruence | reflexivity]. }
    rewrite Hguard.
    remember (ChatThread.messages (activeThread now s)
              ++ [userMessage (submittedText overrideText s) clock s])
      as updated eqn:Hupd.
    assert (Hlist : forall reply,
              ChatThread.messages (activeThread now s)
              ++ userMessage (submittedText overrideText s) clock s :: reply
              = updated ++ reply).
    { intros reply. rewrite Hupd, <- app_assoc. reflexivity. }
    rewrite Hlist.
    destruct (sent_threads updated (updateNow clock) (activeThreadId s)
                (modelMessage clock) now' s) as (Hs1 & Hs2 & Hs3 & Hs4 & Hs5).
    destruct serviceThrows; [|destruct (isImageRequest _)];
      cbn [orb negb inputText attachments isTyping activeThreadId threads
             setIsTyping setAttachments setInputText setThreads];
      repeat (split; [reflexivity|]).
    + split; [exact Hs1|]. split; [|exact Hs5].
      intros Hex. rewrite app_nil_r. apply (Hs2 Hex).
    + split; [exact Hs1|]. split; [|exact Hs5].
      intros Hex. rewrite app_nil_r. apply (Hs2 Hex).
    + destruct Hs3 as [Hs3 Hs6]. split; [exact Hs3|]. split; [exact Hs4|].
      exact Hs6.
Qed.

Lemma submit_appends_to_active_witness :
  let clock := {| idNow := 10; timestampNow := 11; updateNow := 12;
                  aiIdNow := 15; aiTimestampNow := 16 |} in
  let s := setInputText "  hello  " (createNewChat "a" 5 2000 (init 1)) in
  @handleSendMessage_submit asciiOps (Some "   "%string) clock false 13
    (setInputText "   " s)
  = setInputText "   " s
  /\ map (fun m => (Message.id m, Message.text m))
       (ChatThread.messages
          (activeThread 14
             (@handleSendMessage_submit asciiOps None clock false 13 s)))
     = [("10", "hello"); ("ai-15", "")]%string
  /\ map Message.text
       (ChatThread.messages
          (activeThread 14
             (@handleSendMessage_submit asciiOps
                (Some "Generate a cat"%string) clock false 13 s)))
     = ["Generate a cat"%string]
  /\ threads (@handleSendMessage_submit asciiOps None clock false 13
                (setActiveThreadId "gone" s))
     = threads s.
Proof.
  cbv zeta. split; [|split; [|split]].
  - apply (@submit_appends_to_active asciiOps (Some "   "%string)
             {| idNow := 10; timestampNow := 11; updateNow := 12;
                aiIdNow := 15; aiTimestampNow := 16 |} false 13 14);
      reflexivity.
  - destruct (@submit_appends_to_active asciiOps None
                {| idNow := 10; timestampNow := 11; updateNow := 12;
                   aiIdNow := 15; aiTimestampNow := 16 |} false 13 14
                (setInputText "  hello  " (createNewChat "a" 5 2000 (init 1))))
      as [_ H].
    destruct H as (_ & _ & _ & _ & _ & H & _); [left; discriminate|].
    destruct H as [Hm _].
    + eexists. split; [left | reflexivity].
    + rewrite Hm. reflexivity.
  - destruct (@submit_appends_to_active asciiOps
                (Some "Generate a cat"%string)
                {| idNow := 10; timestampNow := 11; updateNow := 12;
                   aiIdNow := 15; aiTimestampNow := 16 |} false 13 14
                (setInputText "  hello  " (createNewChat "a" 5 2000 (init 1))))
      as [_ H].
    destruct H as (_ & _ & _ & _ & _ & H & _); [left; discriminate|].
    destruct H as [Hm _].
    + eexists. split; [left | reflexivity].
    + rewrite Hm. reflexivity.
  - destruct (@submit_appends_to_active asciiOps None
                {| idNow := 10; timestampNow := 11; updateNow := 12;
                   aiIdNow := 15; aiTimestampNow := 16 |} false 13 14
                (setActiveThreadId "gone"
                   (setInputText "  hello  "
                      (createNewChat "a" 5 2000 (init 1)))))
      as [_ H].
    destruct H as (_ & _ & _ & _ & _ & _ & H); [left; discriminate|].
    apply H. intros (t & Ht & Hid). cbn in Ht, Hid.
    repeat (apply elem_of_cons in Ht as [->|Ht]; [discriminate|]).
    inversion Ht.
Defined.

Section Listing.
Context {ops : JsText.Ops}.

Lemma threadMatches_empty (t : ChatThread.t) : threadMatches "" t = true.
Proof.
  unfold threadMatches. rewrite JsText.toLowerCase_empty, includes_empty.
  reflexivity.
Qed.

Lemma filter_all {A : Type} (p : A -> bool) (l : list A) :
  (forall x, p x = true) -> List.filter p l = l.
Proof.
  intros Hp. induction l as [|x l IH]; [reflexivity|].
  cbn [List.filter]. rewrite Hp, IH. reflexivity.
Qed.

Lemma filter_sublist {A : Type} (p : A -> bool) (l : list A) :
  sublist (List.filter p l) l.
Proof.
  induction l as [|x l IH]; [constructor|]. cbn [List.filter].
  destruct (p x); [apply sublist_skip | apply sublist_cons]; exact IH.
Qed.

End Listing.

(** X13. The sidebar shows the threads that pass the search, each
    exactly once, most recently updated first, and threads updated at
    the same time in the order they have in the list; with an empty
    search it shows every thread. *)
Theorem sidebar_sorted_by_last_update {ops : JsText.Ops}
    (s : State) (u : Z) :
  Permutation (sidebarThreads s) (filteredThreads s)
  /\ JsArray.descending ChatThread.lastUpdate (sidebarThreads s)
  /\ List.filter (fun t => ChatThread.lastUpdate t =? u) (sidebarThreads s)
     = List.filter (fun t => ChatThread.lastUpdate t =? u) (filteredThreads s)
  /\ sublist (filteredThreads s) (threads s)
  /\ (threadSearchQuery s = ""%string ->
      Permutation (sidebarThreads s) (threads s)).
Proof.
  split; [apply (ArrayFacts.sort_perm ChatThread.lastUpdate)|].
  split; [apply (ArrayFacts.sort_descending ChatThread.lastUpdate)|].
  split; [apply (ArrayFacts.sort_stable ChatThread.lastUpdate)|].
  split; [apply filter_sublist|].
  intros Hq. etransitivity; [apply (ArrayFacts.sort_perm ChatThread.lastUpdate)|].
  unfold filteredThreads. rewrite Hq, filter_all; [reflexivity|].
  apply threadMatches_empty.
Qed.

Lemma sidebar_sorted_by_last_update_witness :
  let s := createNewChat "c" 5 2000
             (createNewChat "b" 9 2000 (createNewChat "a" 5 2000 (init 1))) in
  map ChatThread.id (@sidebarThreads asciiOps s)
  = ["b"; "c"; "a"; "initial"]%string
  /\ Permutation (@sidebarThreads asciiOps s) (threads s).
Proof.
  cbv zeta. split; [reflexivity|].
  apply (@sidebar_sorted_by_last_update asciiOps _ 0). reflexivity.
Defined.

(** X14. The message list shows messages of the active thread in their
    order; with the bookmark filter on every message shown is a
    favourite; with an empty search the list is all the messages, or
    all the favourites when the bookmark filter is on. *)
Theorem filteredMessages_shown {ops : JsText.Ops} (now : Z) (s : State) :
  sublist (filteredMessages now s) (ChatThread.messages (activeThread now s))
  /\ (showOnlyFavorites s = true ->
      Forall (fun m => favorite m = true) (filteredMessages now s))
  /\ (messageSearchQuery s = ""%string ->
      filteredMessages now s
      = if showOnlyFavorites s
        then List.filter favorite (ChatThread.messages (activeThread now s))
        else ChatThread.messages (activeThread now s)).
Proof.
  split; [apply filter_sublist|]. split.
  - intros Hf. apply Forall_forall. intros m Hm.
    apply list_elem_of_In in Hm. unfold filteredMessages in Hm.
    apply filter_In in Hm as [_ Hm]. cbv zeta in Hm. rewrite Hf in Hm.
    apply andb_true_iff in Hm as [_ Hm]. exact Hm.
  - intros Hq. unfold filteredMessages. cbv zeta.
    rewrite Hq, JsText.toLowerCase_empty.
    destruct (showOnlyFavorites s).
    + apply filter_ext. intros m. rewrite includes_empty. reflexivity.
    + apply filter_all. intros m. rewrite includes_empty. reflexivity.
Qed.

Lemma filteredMessages_shown_witness :
  let clock := {| idNow := 10; timestampNow := 11; updateNow := 12;
                  aiIdNow := 15; aiTimestampNow := 16 |} in
  let s := toggleFavorite "10"
             (@handleSendMessage_submit asciiOps (Some "Hello"%string) clock
                false 13 (init 1)) in
  map Message.text (@filteredMessages asciiOps 14 s) = ["Hello"; ""]%string
  /\ Forall (fun m => favorite m = true)
       (@filteredMessages asciiOps 14
          (toggleFavorite "10"
             (@handleSendMessage_submit asciiOps (Some "ignored"%string)
                {| idNow := 20; timestampNow := 21; updateNow := 22;
                   aiIdNow := 25; aiTimestampNow := 26 |} false 23
                {| threads := threads s; activeThreadId := activeThreadId s;
                   inputText := ""; isTyping := false; showSidebar := false;
                   threadSearchQuery := ""; messageSearchQuery := "LL";
                   showOnlyFavorites := true; persona := persona s;
                   suggestions := []; theme := neon; attachments := [] |}))).
Proof.
  cbv zeta. split; [reflexivity|].
  apply (@filteredMessages_shown asciiOps). reflexivity.
Defined.

(** X15. Removing the attachment at an index drops exactly that element
    and keeps the others in order; an index past the end removes
    nothing; and removing the attachment that was just uploaded restores
    the state before the upload. *)
Theorem removeAttachment_drops_one (i : nat) (dataUrl : string) (s : State) :
  attachments (removeAttachment i s)
  = take i (attachments s) ++ drop (S i) (attachments s)
  /\ ((i < List.length (attachments s))%nat ->
      S (List.length (attachments (removeAttachment i s)))
      = List.length (attachments s))
  /\ ((List.length (attachments s) <= i)%nat -> removeAttachment i s = s)
  /\ removeAttachment (List.length (attachments s))
       (handleImageUpload (Some dataUrl) s) = s.
Proof.
  assert (Hat : attachments (removeAttachment i s)
                = take i (attachments s) ++ drop (S i) (attachments s))
    by apply ArrayFacts.removeAt_take_drop.
  split; [exact Hat|]. split; [|split].
  - intros Hi. rewrite Hat, length_app, length_take, length_drop. lia.
  - intros Hi. unfold removeAttachment.
    rewrite ArrayFacts.removeAt_take_drop, take_ge, drop_ge, app_nil_r by lia.
    destruct s; reflexivity.
  - unfold removeAttachment, handleImageUpload. cbn.
    rewrite ArrayFacts.removeAt_take_drop, take_app_length, drop_ge, app_nil_r
      by (rewrite length_app; cbn; lia).
    destruct s; reflexivity.
Qed.

Lemma removeAttachment_drops_one_witness :
  let s := handleImageUpload (Some "c"%string)
             (handleImageUpload (Some "b"%string)
                (handleImageUpload (Some "a"%string) (init 1))) in
  attachments (removeAttachment 1 s) = ["a"; "c"]%string
  /\ S (List.length (attachments (removeAttachment 1 s))) = 3%nat
  /\ removeAttachment 3 s = s.
Proof.
  cbv zeta. split; [reflexivity|].
  split; apply (removeAttachment_drops_one _ ""%string); cbn; lia.
Defined.

(** X16. Choosing a mode sets the mode and replaces sarcasm and edge by
    that mode's defaults, which all lie between 0 and 100; the language
    and the three switches are kept.  Choosing is idempotent, and the
    initial persona is the "roast" default. *)
Theorem selectMode_applies_defaults (m m' : AppMode) (now : Z) (s : State) :
  let p := persona (selectMode m s) in
  PersonaConfig.mode p = m
  /\ PersonaConfig.sarcasm p = Defaults.sarcasm (MODE_DEFAULTS m)
  /\ PersonaConfig.edge p = Defaults.edge (MODE_DEFAULTS m)
  /\ 0 <= PersonaConfig.sarcasm p <= 100
  /\ 0 <= PersonaConfig.edge p <= 100
  /\ PersonaConfig.language p = PersonaConfig.language (persona s)
  /\ PersonaConfig.fastReply p = PersonaConfig.fastReply (persona s)
  /\ PersonaConfig.useSearch p = PersonaConfig.useSearch (persona s)
  /\ PersonaConfig.useMaps p = PersonaConfig.useMaps (persona s)
  /\ selectMode m (selectMode m' s) = selectMode m s
  /\ selectMode roast (init now) = init now.
Proof.
  cbv zeta. repeat (split; [reflexivity|]).
  split; [destruct m; cbn; lia|]. split; [destruct m; cbn; lia|].
  repeat split.
Qed.

(** X17. What is saved is what is restored: loading the saved form of a
    state brings back its persona and theme, and, when it has threads,
    its threads and its active id, except that an empty active id is
    replaced by the id of the first thread.  A saved state without
    threads leaves the current threads and active id alone; missing or
    unparsable storage changes nothing. *)
Theorem load_restores_saved (s s0 : State) :
  let s' := loadState (Some (Ok (saveState s))) s0 in
  persona s' = persona s
  /\ theme s' = theme s
  /\ (forall first rest, threads s = first :: rest ->
      threads s' = threads s
      /\ activeThreadId s'
         = if JsText.nonEmpty (activeThreadId s)
           then activeThreadId s else ChatThread.id first)
  /\ (threads s = [] ->
      threads s' = threads s0 /\ activeThreadId s' = activeThreadId s0)
  /\ inputText s' = inputText s0
  /\ loadState None s0 = s0
  /\ loadState (Some (Err tt)) s0 = s0.
Proof.
  cbv zeta. unfold loadState, saveState.
  cbn [Saved.threads Saved.activeThreadId Saved.persona Saved.theme].
  destruct (threads s) as [|first rest] eqn:Hth.
  - split; [reflexivity|]. split; [reflexivity|].
    split; [intros f r Heq; discriminate Heq|].
    split; [intros _; split; reflexivity|].
    split; [reflexivity|]. split; reflexivity.
  - split; [reflexivity|]. split; [reflexivity|]. split.
    + intros f r Heq. inversion Heq; subst f r.
      split; [reflexivity|]. cbn. destruct (activeThreadId s); reflexivity.
    + split; [intros Heq; discriminate Heq|].
      split; [reflexivity|]. split; reflexivity.
Qed.

Lemma load_restores_saved_witness :
  let s := setActiveThreadId "" (createNewChat "a" 5 2000 (init 1)) in
  let s' := loadState (Some (Ok (saveState s))) (init 2) in
  threads s' = threads s /\ activeThreadId s' = "a"%string
  /\ threads (loadState (Some (Ok (saveState (setThreads (fun _ => []) s))))
                (init 2))
     = threads (init 2).
Proof.
  cbv zeta.
  destruct (load_restores_saved
              (setActiveThreadId "" (createNewChat "a" 5 2000 (init 1)))
              (init 2)) as (_ & _ & H & _).
  destruct (H _ _ eq_refl) as [Hth Hact].
  split; [exact Hth|]. split; [exact Hact|].
  apply (load_restores_saved
           (setThreads (fun _ => [])
              (setActiveThreadId "" (createNewChat "a" 5 2000 (init 1))))
           (init 2)).
  reflexivity.
Defined.

End ChatFacts.
